(** * BufferedDocument: the buffering / committer / rebase engine

    A shallow embedding of
    [packages/@sanity/mutator/src/document/BufferedDocument.js].

    JavaScript objects live in an explicit store, because the engine
    compares snapshots by reference ([oldLocal != this.LOCAL]), compares
    them by content ([isEqual]) and writes into a snapshot it has already
    handed out ([oldLocal._rev = this.LOCAL._rev]).  The callbacks the
    engine invokes and the calls it makes on its collaborators are recorded,
    in order, in a trace. *)

From Stdlib Require Import ZArith String List Bool Lia.
From stdpp Require Import base option list gmap strings.

(** ** Snapshots *)

(** Property values of a document.  [VUndefined] is what reading an absent
    property yields, and what a property explicitly set to [undefined]
    holds. *)
Inductive value : Type :=
| VUndefined
| VNull
| VBool (b : bool)
| VNum (n : Z)
| VStr (s : string).

#[global] Instance value_eq_dec : EqDecision value.
Proof. solve_decision. Defined.

(** A document object: its own enumerable properties. *)
Abbreviation obj := (gmap string value).

(** [o.k] *)
Definition get_prop (o : obj) (k : string) : value :=
  default VUndefined (o !! k).

(** [o.k = v]: creates the property when it is absent, also for
    [v = undefined]. *)
Definition set_prop (o : obj) (k : string) (v : value) : obj :=
  <[k := v]> o.

(** The object store, and references into it; [None] is [null], the
    deleted sentinel. *)
Abbreviation heap := (list obj).
Abbreviation ref := (option nat).

Definition alloc (h : heap) (o : obj) : heap * ref :=
  (h ++ [o], Some (length h)).

Definition deref (h : heap) (r : ref) : option obj :=
  match r with
  | Some l => h !! l
  | None => None
  end.

(** [a != b] on references: identity, not content. *)
Definition ref_neq (a b : ref) : bool := negb (bool_decide (a = b)).

(** lodash's [isEqual] on two snapshots: [null] equals only [null]; two
    objects are equal when they have the same own properties with the same
    values (a property holding [undefined] is still a property). *)
Definition isEqual (h : heap) (a b : ref) : bool :=
  bool_decide (deref h a = deref h b).

(** [oldLocal._rev = LOCAL._rev] *)
Definition copy_rev (h : heap) (oldLocal LOCAL : nat) : heap :=
  match h !! LOCAL, h !! oldLocal with
  | Some n, Some o =>
      <[oldLocal := set_prop o "_rev"%string (get_prop n "_rev"%string)]> h
  | _, _ => h
  end.

(** Outcome of a call: it returns, or it throws. *)
Inductive outcome : Type :=
| Returned
| Threw (message : string).

Section Engine.

(** ** The collaborators

    The operation algebra ([Mutation]) and the messages of the tracker
    are not part of this file of the repository; they are parameters. *)
Context {Mutation Msg : Type}.

(** [mutation.apply(doc)]: may allocate, returns a reference. *)
Variable Mutation_apply : Mutation -> heap -> ref -> heap * ref.

(** [Mutation.squash(doc, mutations)] *)
Variable Mutation_squash : heap -> ref -> list Mutation -> Mutation.

(** Modelled from the spec: [Mutation.applyAll(doc, mutations)], which is
    not in this file, replays the mutations in order onto the
    snapshot. *)
Fixpoint Mutation_applyAll (h : heap) (doc : ref) (ms : list Mutation)
  : heap * ref :=
  match ms with
  | [] => (h, doc)
  | m :: ms' =>
      let '(h', doc') := Mutation_apply m h doc in
      Mutation_applyAll h' doc' ms'
  end.

(** ** Commit *)

Record Commit : Type := mkCommit {
  Commit_mutations : list Mutation;
  Commit_tries : nat
}.

(** [new Commit(mutations)] *)
Definition Commit_new (ms : list Mutation) : Commit := mkCommit ms 0.

(** [commit.apply(doc)] *)
Definition Commit_apply (h : heap) (doc : ref) (c : Commit) : heap * ref :=
  Mutation_applyAll h doc (Commit_mutations c).

(** [commit.squash(doc)]: the squashed mutation together with the
    transaction identifier [assignRandomTransactionId] drew for it. *)
Definition Commit_squash (h : heap) (doc : ref) (c : Commit) (txn : N)
  : Mutation * N :=
  (Mutation_squash h doc (Commit_mutations c), txn).

(** ** What the engine does to the outside *)

Inductive event : Type :=
(** [onMutation({mutation, document, remote})] *)
| OnMutation (mutation : Mutation) (document : ref) (remote : bool)
(** [onMutation(msg)], the tracker's message passed through *)
| OnMutationMsg (msg : Msg)
| OnRebase (doc : ref)
| OnDelete (doc : ref)
(** [document.stage(squashed, true)] *)
| DocStage (squashed : Mutation * N)
(** [commitHandler({mutation: squashed, success, failure})] *)
| CommitHandler (squashed : Mutation * N)
| DocResponderSuccess
| DocResponderFailure
(** [setTimeout(() => this._cycleCommitter(), delay)] *)
| SetTimeout (delay : Z)
| DocReset (doc : ref)
| DocArrive (mutation : Mutation).

(** ** BufferedDocument *)

Record BufferedDocument : Type := mkBD {
  store : heap;
  (** [this.document.EDGE] *)
  EDGE : ref;
  LOCAL : ref;
  commits : list Commit;
  mutations : list Mutation;
  (** whether each handler has been set *)
  onMutation : bool;
  onRebase : bool;
  onDelete : bool;
  commitHandler : bool;
  committerRunning : bool;
  (** commits captured by responders handed to [commitHandler] and not
      called back yet *)
  inflight : list Commit;
  (** pending [setTimeout] callbacks *)
  timers : nat;
  trace : list event
}.

Definition with_store (h : heap) (bd : BufferedDocument) :=
  mkBD h (EDGE bd) (LOCAL bd) (commits bd) (mutations bd) (onMutation bd)
    (onRebase bd) (onDelete bd) (commitHandler bd) (committerRunning bd)
    (inflight bd) (timers bd) (trace bd).
Definition with_EDGE (e : ref) (bd : BufferedDocument) :=
  mkBD (store bd) e (LOCAL bd) (commits bd) (mutations bd) (onMutation bd)
    (onRebase bd) (onDelete bd) (commitHandler bd) (committerRunning bd)
    (inflight bd) (timers bd) (trace bd).
Definition with_LOCAL (l : ref) (bd : BufferedDocument) :=
  mkBD (store bd) (EDGE bd) l (commits bd) (mutations bd) (onMutation bd)
    (onRebase bd) (onDelete bd) (commitHandler bd) (committerRunning bd)
    (inflight bd) (timers bd) (trace bd).
Definition with_commits (cs : list Commit) (bd : BufferedDocument) :=
  mkBD (store bd) (EDGE bd) (LOCAL bd) cs (mutations bd) (onMutation bd)
    (onRebase bd) (onDelete bd) (commitHandler bd) (committerRunning bd)
    (inflight bd) (timers bd) (trace bd).
Definition with_mutations (ms : list Mutation) (bd : BufferedDocument) :=
  mkBD (store bd) (EDGE bd) (LOCAL bd) (commits bd) ms (onMutation bd)
    (onRebase bd) (onDelete bd) (commitHandler bd) (committerRunning bd)
    (inflight bd) (timers bd) (trace bd).
Definition with_committerRunning (b : bool) (bd : BufferedDocument) :=
  mkBD (store bd) (EDGE bd) (LOCAL bd) (commits bd) (mutations bd)
    (onMutation bd) (onRebase bd) (onDelete bd) (commitHandler bd) b
    (inflight bd) (timers bd) (trace bd).
Definition with_inflight (cs : list Commit) (bd : BufferedDocument) :=
  mkBD (store bd) (EDGE bd) (LOCAL bd) (commits bd) (mutations bd)
    (onMutation bd) (onRebase bd) (onDelete bd) (commitHandler bd)
    (committerRunning bd) cs (timers bd) (trace bd).
Definition with_timers (n : nat) (bd : BufferedDocument) :=
  mkBD (store bd) (EDGE bd) (LOCAL bd) (commits bd) (mutations bd)
    (onMutation bd) (onRebase bd) (onDelete bd) (commitHandler bd)
    (committerRunning bd) (inflight bd) n (trace bd).
Definition emit (e : event) (bd : BufferedDocument) :=
  mkBD (store bd) (EDGE bd) (LOCAL bd) (commits bd) (mutations bd)
    (onMutation bd) (onRebase bd) (onDelete bd) (commitHandler bd)
    (committerRunning bd) (inflight bd) (timers bd) (trace bd ++ [e]).

(** [new BufferedDocument(doc)].  Modelled from the spec:
    [new Document(doc)], which is not in this file, takes [doc] as its
    authoritative snapshot; no handler is set yet. *)
Definition constructor (h : heap) (doc : ref) : BufferedDocument :=
  mkBD h doc doc [] [] false false false false false [] 0 [].

(** Modelled from the spec: [Document.stage(mutation, true)], which is not
    in this file, is asked to stage the operation and returns a responder
    pair.  The call is recorded.  What staging does to the tracker's own
    snapshot is the tracker's business: every change of [EDGE] is an input
    of its own to the engine ([TrackerMoves], or a notification). *)
Definition Document_stage (squashed : Mutation * N) (bd : BufferedDocument)
  : BufferedDocument :=
  emit (DocStage squashed) bd.

(** Modelled from the spec: the responder pair [Document.stage] returned
    informs the tracker of the outcome. *)
Definition docResponder_success (bd : BufferedDocument) : BufferedDocument :=
  emit DocResponderSuccess bd.

Definition docResponder_failure (bd : BufferedDocument) : BufferedDocument :=
  emit DocResponderFailure bd.

(** [add(mutation)] *)
Definition add (mutation : Mutation) (bd : BufferedDocument)
  : BufferedDocument :=
  let bd := with_mutations (mutations bd ++ [mutation]) bd in
  let oldLocal := LOCAL bd in
  let '(h, l) := Mutation_apply mutation (store bd) (LOCAL bd) in
  let bd := with_LOCAL l (with_store h bd) in
  if onMutation bd && ref_neq oldLocal (LOCAL bd)
  then emit (OnMutation mutation (LOCAL bd) false) bd
  else bd.

(** [_cycleCommitter()]; [txn] is the transaction identifier drawn for
    the squashed mutation.  Calling an unset [commitHandler] is a
    TypeError. *)
Definition _cycleCommitter (txn : N) (bd : BufferedDocument)
  : BufferedDocument * outcome :=
  match commits bd with
  | [] => (with_committerRunning false bd, Returned)
  | commit :: rest =>
      let bd := with_committerRunning true bd in
      let bd := with_commits rest bd in
      let squashed := Commit_squash (store bd) (LOCAL bd) commit txn in
      let bd := Document_stage squashed bd in
      if commitHandler bd
      then (with_inflight (inflight bd ++ [commit])
              (emit (CommitHandler squashed) bd), Returned)
      else (bd, Threw "this.commitHandler is not a function"%string)
  end.

(** [performCommits()] *)
Definition performCommits (txn : N) (bd : BufferedDocument)
  : BufferedDocument * outcome :=
  if negb (commitHandler bd)
  then (bd, Threw "No commitHandler configured for this BufferedDocument"%string)
  else if committerRunning bd
  then (bd, Returned)
  else _cycleCommitter txn bd.

(** [commit()] *)
Definition commit (txn : N) (bd : BufferedDocument)
  : BufferedDocument * outcome :=
  if (length (mutations bd) =? 0)%nat
  then (bd, Returned)
  else
    let bd := with_commits (commits bd ++ [Commit_new (mutations bd)]) bd in
    let bd := with_mutations [] bd in
    performCommits txn bd.

(** [responder.success], closed over [commit] *)
Definition responder_success (txn : N) (bd : BufferedDocument)
  : BufferedDocument * outcome :=
  _cycleCommitter txn (docResponder_success bd).

(** [responder.failure], closed over [commit] *)
Definition responder_failure (commit : Commit) (bd : BufferedDocument)
  : BufferedDocument :=
  let commit := mkCommit (Commit_mutations commit) (Commit_tries commit + 1) in
  let bd := if bool_decide (LOCAL bd <> None)
            then with_commits (commit :: commits bd) bd
            else bd in
  let bd := docResponder_failure bd in
  with_timers (timers bd + 1) (emit (SetTimeout 1000) bd).

(** [handleDocumentDeleted()] *)
Definition handleDocumentDeleted (bd : BufferedDocument)
  : BufferedDocument :=
  let bd := if bool_decide (LOCAL bd <> None) && onDelete bd
            then emit (OnDelete (LOCAL bd)) bd
            else bd in
  with_mutations [] (with_commits [] bd).

(** [rebase()] *)
Definition rebase (bd : BufferedDocument) : BufferedDocument :=
  let bd := if bool_decide (EDGE bd = None)
            then handleDocumentDeleted bd
            else bd in
  let oldLocal := LOCAL bd in
  let '(h, l) := fold_left (fun '(h, doc) commit => Commit_apply h doc commit)
                   (commits bd) (store bd, EDGE bd) in
  let '(h, l) := Mutation_applyAll h l (mutations bd) in
  let bd := with_LOCAL l (with_store h bd) in
  let bd := match oldLocal, LOCAL bd with
            | Some o, Some n => with_store (copy_rev (store bd) o n) bd
            | _, _ => bd
            end in
  let changed := negb (isEqual (store bd) (LOCAL bd) oldLocal) in
  if changed && onRebase bd
  then emit (OnRebase (LOCAL bd)) bd
  else bd.

(** [handleDocRebase(msg)] *)
Definition handleDocRebase (msg : Msg) (bd : BufferedDocument)
  : BufferedDocument :=
  rebase bd.

(** [handleDocMutation(msg)] *)
Definition handleDocMutation (msg : Msg) (bd : BufferedDocument)
  : BufferedDocument :=
  let bd :=
    if (length (commits bd) =? 0)%nat && (length (mutations bd) =? 0)%nat
    then
      let bd := with_LOCAL (EDGE bd) bd in
      if onMutation bd then emit (OnMutationMsg msg) bd else bd
    else bd in
  let bd := if bool_decide (EDGE bd = None)
            then handleDocumentDeleted bd
            else bd in
  rebase bd.

(** Modelled from the spec: [Document.reset(doc)], which is not in this
    file, replaces the tracker's authoritative state wholesale. *)
Definition Document_reset (doc : ref) (bd : BufferedDocument)
  : BufferedDocument :=
  with_EDGE doc (emit (DocReset doc) bd).

(** [reset(doc)] *)
Definition reset (doc : ref) (bd : BufferedDocument) : BufferedDocument :=
  rebase (Document_reset doc bd).

(** [arrive(mutation)]: handed to the tracker. *)
Definition arrive (mutation : Mutation) (bd : BufferedDocument)
  : BufferedDocument :=
  emit (DocArrive mutation) bd.

(** ** The engine as a state machine

    Everything that can happen to an engine between two quiescent points:
    a call of the caller, a callback of the transport (each responder is
    called back once), a timer firing, a notification of the tracker (which
    has moved its [EDGE] first), or the tracker moving its [EDGE] without a
    word (as it may when it stages or settles an operation). *)

Inductive input : Type :=
| DoAdd (mutation : Mutation)
| DoCommit (txn : N)
| DoPerformCommits (txn : N)
| DoReset (doc : ref)
| DoArrive (mutation : Mutation)
| DoConfigure (onMutation' onRebase' onDelete' commitHandler' : bool)
| NewObject (o : obj)
| TransportSuccess (txn : N)
| TransportFailure
| TimerFires (txn : N)
| TrackerMutation (edge : ref) (msg : Msg)
| TrackerRebase (edge : ref) (msg : Msg)
| TrackerMoves (edge : ref).

Definition configure (m r d c : bool) (bd : BufferedDocument)
  : BufferedDocument :=
  mkBD (store bd) (EDGE bd) (LOCAL bd) (commits bd) (mutations bd) m r d c
    (committerRunning bd) (inflight bd) (timers bd) (trace bd).

(** [None]: the input cannot happen in this state. *)
Definition step (i : input) (bd : BufferedDocument)
  : option BufferedDocument :=
  match i with
  | DoAdd m => Some (add m bd)
  | DoCommit txn => Some (fst (commit txn bd))
  | DoPerformCommits txn => Some (fst (performCommits txn bd))
  | DoReset doc => Some (reset doc bd)
  | DoArrive m => Some (arrive m bd)
  | DoConfigure m r d c => Some (configure m r d c bd)
  | NewObject o => Some (with_store (store bd ++ [o]) bd)
  | TransportSuccess txn =>
      match inflight bd with
      | c :: rest => Some (fst (responder_success txn (with_inflight rest bd)))
      | [] => None
      end
  | TransportFailure =>
      match inflight bd with
      | c :: rest => Some (responder_failure c (with_inflight rest bd))
      | [] => None
      end
  | TimerFires txn =>
      match timers bd with
      | S n => Some (fst (_cycleCommitter txn (with_timers n bd)))
      | O => None
      end
  | TrackerMutation edge msg => Some (handleDocMutation msg (with_EDGE edge bd))
  | TrackerRebase edge msg => Some (handleDocRebase msg (with_EDGE edge bd))
  | TrackerMoves edge => Some (with_EDGE edge bd)
  end.

Fixpoint run (ins : list input) (bd : BufferedDocument)
  : option BufferedDocument :=
  match ins with
  | [] => Some bd
  | i :: ins' =>
      match step i bd with
      | Some bd' => run ins' bd'
      | None => None
      end
  end.

(** The committer loops alive in a state: each one is waiting either for
    the transport to call back or for its retry timer. *)
Definition active_loops (bd : BufferedDocument) : nat :=
  length (inflight bd) + timers bd.

(** ** The optimistic snapshot recomputed from scratch *)

(** The expression of [rebase]: every queued commit applied to [EDGE] in
    queue order, then the buffer. *)
Definition recompute (bd : BufferedDocument) : heap * ref :=
  let '(h, l) := fold_left (fun '(h, doc) commit => Commit_apply h doc commit)
                   (commits bd) (store bd, EDGE bd) in
  Mutation_applyAll h l (mutations bd).


(** A reference is [null] or points into the store. *)
Definition ref_ok (h : heap) (r : ref) : Prop :=
  match r with
  | Some l => l < length h
  | None => True
  end.

(** What the spec asks of the operation algebra: [apply] is a pure
    function of the content of the snapshot; it may build new objects and
    leaves the existing ones alone. *)
Definition pure_apply (apply_value : Mutation -> option obj -> option obj)
  : Prop :=
  forall m h r,
    ref_ok h r ->
    exists ext,
      fst (Mutation_apply m h r) = h ++ ext /\
      ref_ok (h ++ ext) (snd (Mutation_apply m h r)) /\
      deref (h ++ ext) (snd (Mutation_apply m h r)) = apply_value m (deref h r).


(** What tells the committer loops of a state: the responders out with the
    transport, the pending timers, the flag. *)
Definition committer_state (bd : BufferedDocument)
  : list Commit * nat * bool :=
  (inflight bd, timers bd, committerRunning bd).

(** At most one loop is alive, and the flag is up while one is. *)
Definition single_flight (bd : BufferedDocument) : Prop :=
  active_loops bd <= 1 /\
  (1 <= active_loops bd -> committerRunning bd = true).

(** The snapshots the [onDelete] handler was called with, in order. *)
Definition deletions (tr : list event) : list ref :=
  flat_map (fun e => match e with OnDelete doc => [doc] | _ => [] end) tr.

(** The first step of [rebase]: deletion handling when the authoritative
    snapshot is the deleted sentinel. *)
Definition purge_if_deleted (bd : BufferedDocument) : BufferedDocument :=
  if bool_decide (EDGE bd = None) then handleDocumentDeleted bd else bd.

(** Two snapshots with the same content, the revision marker set aside. *)
Definition same_content (a b : option obj) : Prop :=
  delete "_rev"%string <$> a = delete "_rev"%string <$> b.

#[global] Instance same_content_dec a b : Decision (same_content a b).
Proof. unfold same_content. apply _. Defined.


(** The content a pure [apply] gives, replayed over a list of mutations,
    over a queue of commits and then a buffer. *)
Definition applyAll_value (apply_value : Mutation -> option obj -> option obj)
  (ms : list Mutation) (v : option obj) : option obj :=
  fold_left (fun v m => apply_value m v) ms v.

Definition recompute_value (apply_value : Mutation -> option obj -> option obj)
  (bd : BufferedDocument) : option obj :=
  applyAll_value apply_value (mutations bd)
    (fold_left (fun v c => applyAll_value apply_value (Commit_mutations c) v)
       (commits bd) (deref (store bd) (EDGE bd))).

(** The squashed mutations handed to the tracker for staging, in order. *)
Definition staged (tr : list event) : list (Mutation * N) :=
  flat_map (fun e => match e with DocStage sq => [sq] | _ => [] end) tr.

(** The local mutations not confirmed yet, oldest first: those of the
    commits with the transport, those of the queued commits, the buffer. *)
Definition pending_mutations (bd : BufferedDocument) : list Mutation :=
  concat (map Commit_mutations (inflight bd ++ commits bd)) ++ mutations bd.

(** One round of a failing transport: the failure callback, then the retry
    timer, for each transaction identifier drawn. *)
Definition failure_rounds (txns : list N) : list input :=
  flat_map (fun txn => [TransportFailure; TimerFires txn]) txns.

(** The squashed mutations handed to the transport, in order. *)
Definition handed (tr : list event) : list (Mutation * N) :=
  flat_map (fun e => match e with CommitHandler sq => [sq] | _ => [] end) tr.

(** Events that concern neither the staging with the tracker nor the
    transport. *)
Definition quiet (evs : list event) : Prop :=
  staged evs = [] /\ handed evs = [].

(** A trace in which every call of [commitHandler] comes right after the
    call of [document.stage] with the same squashed mutation.  [prev] is
    the mutation staged by the event just before, if that was a
    staging. *)
Fixpoint staged_first (prev : option (Mutation * N)) (evs : list event)
  : Prop :=
  match evs with
  | [] => True
  | e :: rest =>
      match e with
      | CommitHandler sq => prev = Some sq /\ staged_first None rest
      | DocStage sq => staged_first (Some sq) rest
      | _ => staged_first None rest
      end
  end.

(** What a run of successes adds to the trace: each success tells the
    tracker, then the next queued commit, if any, is staged and handed to
    the transport. *)
Fixpoint success_events (h : heap) (l : ref) (cs : list Commit)
  (txns : list N) : list event :=
  match txns with
  | [] => []
  | txn :: txns' =>
      DocResponderSuccess ::
      match cs with
      | [] => []
      | c :: cs' =>
          DocStage (Commit_squash h l c txn) ::
          CommitHandler (Commit_squash h l c txn) ::
          success_events h l cs' txns'
      end
  end.


End Engine.

Arguments Commit : clear implicits.
Arguments event : clear implicits.
Arguments BufferedDocument : clear implicits.

(** ** A small operation algebra to run the engine on

    A mutation is a list of patches; applying it builds a new object when
    the content changes and hands back the same reference when it does
    not. *)
Module Sample.

Inductive patch : Type :=
| Inc (k : string) (n : Z)
| Delete.

Definition patch_value (v : option obj) (p : patch) : option obj :=
  match p, v with
  | Inc k n, Some o =>
      match get_prop o k with
      | VNum z => Some (set_prop o k (VNum (z + n)))
      | _ => Some o
      end
  | Inc _ _, None => None
  | Delete, _ => None
  end.

Definition apply_value (m : list patch) (v : option obj) : option obj :=
  fold_left patch_value m v.

Definition apply (m : list patch) (h : heap) (r : ref) : heap * ref :=
  let v := apply_value m (deref h r) in
  if bool_decide (v = deref h r) then (h, r)
  else match v with
       | Some o => alloc h o
       | None => (h, None)
       end.

Definition squash (h : heap) (r : ref) (ms : list (list patch)) : list patch :=
  concat ms.

Definition incField (k : string) (n : Z) : list patch := [Inc k n].

(** [{count: n}] *)
Definition counter (n : Z) : obj := {[ "count"%string := VNum n ]}.

(** [{count: n, _rev: r}] *)
Definition counter_rev (n : Z) (r : string) : obj :=
  <[ "_rev"%string := VStr r ]> (counter n).

Abbreviation engine := (BufferedDocument (list patch) unit).

(** An engine on [{count: 0}] with every handler set. *)
Definition fresh : engine :=
  mkBD [counter 0] (Some 0%nat) (Some 0%nat) [] [] true true true true false
    [] 0 [].

(** [fresh] after [add(incField("count", 1))]. *)
Definition edited : engine := add apply (incField "count" 1) fresh.

(** [edited] after [commit()]: the commit is with the transport. *)
Definition submitted : engine := fst (commit squash 7%N edited).

(** The tracker reports the deletion to [fresh], which has nothing
    pending, and to [edited], which has one buffered mutation. *)
Definition deleted_idle : engine :=
  handleDocMutation apply tt (with_EDGE None fresh).

Definition deleted_pending : engine :=
  handleDocMutation apply tt (with_EDGE None edited).

(** The same deletion reaching [edited] as a rebase request. *)
Definition deleted_by_rebase : engine :=
  handleDocRebase apply tt (with_EDGE None edited).

(** [edited] rebased, and rebased again, with nothing happening in
    between. *)
Definition rebased_once : engine := rebase apply edited.
Definition rebased_twice : engine := rebase apply rebased_once.

(** An engine on [{count: 0, _rev: "r1"}], edited as above; then the
    tracker moves on to [{count: 5, _rev: "r2"}] and says so. *)
Definition fresh_rev : engine :=
  mkBD [counter_rev 0 "r1"] (Some 0%nat) (Some 0%nat) [] [] true true true
    true false [] 0 [].

Definition edited_rev : engine := add apply (incField "count" 1) fresh_rev.

Definition moved_rev : engine :=
  handleDocMutation apply tt
    (with_EDGE (Some 2%nat)
       (with_store (store edited_rev ++ [counter_rev 5 "r2"]) edited_rev)).

(** The transport reports the failure of the commit of [submitted]; the
    caller then adds and commits once more. *)
Definition failed : engine :=
  responder_failure (Commit_new [incField "count" 1])
    (with_inflight [] submitted).

Definition queued_behind : engine :=
  fst (commit squash 8%N (add apply (incField "count" 2) failed)).

(** [fresh] once the tracker has moved on to [{count: 5}]. *)
Definition behind : engine :=
  with_EDGE (Some 1%nat) (with_store [counter 0; counter 5] fresh).


(** [submitted] with one more commit queued behind the one that is with
    the transport. *)
Definition backlog : engine :=
  fst (commit squash 8%N (add apply (incField "count" 2) submitted)).

(** [fresh] after the caller has deleted the document locally and
    committed: the optimistic snapshot is the sentinel, the commit is with
    the transport. *)
Definition deleting : engine := fst (commit squash 7%N (add apply [Delete] fresh)).

(** [edited] with no [commitHandler]. *)
Definition unconfigured : engine := configure true true true false edited.






End Sample.

(** * Properties *)

Section Properties.

Context {Mutation Msg : Type}.
Variable Mutation_apply : Mutation -> heap -> ref -> heap * ref.
Variable Mutation_squash : heap -> ref -> list Mutation -> Mutation.

Implicit Types bd : BufferedDocument Mutation Msg.
Implicit Types c : Commit Mutation.

(** ** Record plumbing *)

Lemma length_zero_cons {A} (l : list A) : l <> [] -> (length l =? 0)%nat = false.
Proof. destruct l; simpl; congruence. Qed.

(** ** commit *)

(** C8. [commit()] on an empty buffer is a no-op: the engine is left exactly
    as it was (no Commit is created, the queue is the same, nothing is added
    to the trace of notifications and calls) and the call returns. *)
Theorem commit_empty_buffer_noop (txn : N) bd :
  mutations bd = [] ->
  commit Mutation_squash txn bd = (bd, Returned).
Proof.
  intros Hnil. unfold commit. rewrite Hnil. reflexivity.
Qed.

(** ** add *)

(** C5. [add(mutation)] appends the mutation to the buffer, makes
    [apply(previous LOCAL, mutation)] the optimistic snapshot, leaves queue
    and authoritative snapshot alone, and calls the [onMutation] handler,
    with the mutation, the new snapshot and [remote: false], exactly when
    the new snapshot is not the previous one; when [apply] hands back the
    snapshot it was given, nothing is notified. *)
Theorem add_appends_applies_notifies (m : Mutation) bd :
  let after := Mutation_apply m (store bd) (LOCAL bd) in
  let bd' := add Mutation_apply m bd in
  mutations bd' = mutations bd ++ [m] /\
  (store bd', LOCAL bd') = after /\
  commits bd' = commits bd /\
  EDGE bd' = EDGE bd /\
  trace bd' =
    trace bd ++
    (if onMutation bd && ref_neq (LOCAL bd) (LOCAL bd')
     then [OnMutation m (LOCAL bd') false] else []).
Proof.
  intros after bd'. subst after bd'. unfold add.
  destruct bd as [h e l cs ms onM onR onD cH run fl tm tr]; simpl.
  destruct (Mutation_apply m h l) as [h' l'].
  cbn [with_mutations with_LOCAL with_store emit store LOCAL mutations
       commits EDGE onMutation trace].
  destruct onM, (ref_neq l l') eqn:E; cbn; rewrite ?E, ?app_nil_r;
    repeat split; reflexivity.
Qed.

(** C9. [commit()] on a non-empty buffer empties the buffer, leaves the
    optimistic snapshot (reference and store) as it was, and appends one
    new Commit with the former buffer, in order and with no tries, at the
    tail of the queue; it then invokes the committer.  With a committer
    already running, or with no [commitHandler] (the call then throws), the
    queue afterwards is the old queue followed by the new Commit.  With a
    handler and no committer running, the head of that queue is dequeued at
    once, staged and handed to the transport. *)
Theorem commit_moves_buffer_to_queue (txn : N) bd :
  mutations bd <> [] ->
  let c := Commit_new (mutations bd) in
  let bd' := fst (commit Mutation_squash txn bd) in
  mutations bd' = [] /\
  store bd' = store bd /\
  LOCAL bd' = LOCAL bd /\
  snd (commit Mutation_squash txn bd) =
    (if commitHandler bd then Returned
     else Threw "No commitHandler configured for this BufferedDocument") /\
  if commitHandler bd && negb (committerRunning bd)
  then exists hd,
      commits bd ++ [c] = hd :: commits bd' /\
      inflight bd' = inflight bd ++ [hd] /\
      let squashed := Commit_squash Mutation_squash (store bd) (LOCAL bd) hd txn in
      trace bd' = trace bd ++ [DocStage squashed; CommitHandler squashed]
  else commits bd' = commits bd ++ [c] /\
       inflight bd' = inflight bd /\
       trace bd' = trace bd.
Proof.
  intros Hne c bd'. subst c bd'. unfold commit.
  rewrite (length_zero_cons _ Hne).
  destruct bd as [h e l cs ms onM onR onD cH rn fl tm tr].
  unfold performCommits; cbn.
  destruct cH; cbn; [destruct rn; cbn|]; try (repeat split; reflexivity).
  unfold _cycleCommitter; cbn.
  destruct (cs ++ [Commit_new ms]) as [|hd rest] eqn:E.
  - destruct cs; discriminate.
  - cbn. repeat split; try reflexivity.
    exists hd. repeat split. rewrite <- app_assoc. reflexivity.
Qed.

Lemma add_fields (m : Mutation) bd :
  let after := Mutation_apply m (store bd) (LOCAL bd) in
  let bd' := add Mutation_apply m bd in
  mutations bd' = mutations bd ++ [m] /\
  (store bd', LOCAL bd') = after /\
  commits bd' = commits bd /\
  EDGE bd' = EDGE bd.
Proof.
  intros after bd'. subst after bd'. unfold add.
  destruct bd as [h e l cs ms onM onR onD cH run fl tm tr]; simpl.
  destruct (Mutation_apply m h l) as [h' l'].
  destruct (onM && ref_neq l l'); repeat split; reflexivity.
Qed.

(** ** The committer *)

(** Case analysis on whatever the goal branches on. *)
Ltac split_branches :=
  repeat match goal with
         | |- context [if ?b then _ else _] => destruct b
         | |- context [let '(_, _) := ?p in _] => destruct p
         | |- context [match ?x with Some _ => _ | None => _ end] => destruct x
         end.

Lemma handleDocumentDeleted_committer bd :
  committer_state (handleDocumentDeleted bd) = committer_state bd.
Proof. unfold handleDocumentDeleted. split_branches; reflexivity. Qed.

Lemma rebase_committer bd :
  committer_state (rebase Mutation_apply bd) = committer_state bd.
Proof.
  unfold rebase.
  set (bd0 := if bool_decide (EDGE bd = None) then handleDocumentDeleted bd else bd).
  assert (H0 : committer_state bd0 = committer_state bd).
  { subst bd0. destruct (bool_decide (EDGE bd = None));
      auto using handleDocumentDeleted_committer. }
  rewrite <- H0. clearbody bd0. split_branches; reflexivity.
Qed.

Lemma handleDocMutation_committer (msg : Msg) bd :
  committer_state (handleDocMutation Mutation_apply msg bd) = committer_state bd.
Proof.
  unfold handleDocMutation. rewrite rebase_committer.
  split_branches; rewrite ?handleDocumentDeleted_committer; reflexivity.
Qed.

Lemma add_committer (m : Mutation) bd :
  committer_state (add Mutation_apply m bd) = committer_state bd.
Proof. unfold add. split_branches; reflexivity. Qed.

Lemma single_flight_committer bd1 bd2 :
  committer_state bd1 = committer_state bd2 ->
  single_flight bd1 -> single_flight bd2.
Proof.
  unfold committer_state, single_flight, active_loops.
  intros [= -> -> ->]. auto.
Qed.

Lemma _cycleCommitter_single_flight (txn : N) bd :
  active_loops bd = 0 ->
  single_flight (fst (_cycleCommitter Mutation_squash txn bd)).
Proof.
  unfold active_loops, single_flight, _cycleCommitter. intros H0.
  destruct (inflight bd) eqn:Ei; [|simpl in H0; lia].
  destruct (timers bd) eqn:Et; [|lia].
  destruct (commits bd) as [|c rest]; cbn.
  - rewrite Ei, Et. cbn. split; lia.
  - destruct (commitHandler bd); cbn; rewrite ?Ei, ?Et; cbn; split; auto; lia.
Qed.

Lemma performCommits_single_flight (txn : N) bd :
  single_flight bd ->
  single_flight (fst (performCommits Mutation_squash txn bd)).
Proof.
  intros HI. unfold performCommits.
  destruct (commitHandler bd); cbn; auto.
  destruct (committerRunning bd) eqn:Er; cbn; auto.
  apply _cycleCommitter_single_flight.
  destruct HI as [Hle Hrun].
  destruct (active_loops bd) as [|n] eqn:E; auto.
  rewrite Hrun in Er by lia. discriminate.
Qed.

Lemma step_single_flight (i : input) bd bd' :
  step Mutation_apply Mutation_squash i bd = Some bd' ->
  single_flight bd -> single_flight bd'.
Proof.
  destruct i; cbn; intros Hs HI.
  - injection Hs as <-. eapply single_flight_committer; [|exact HI].
    symmetry. apply add_committer.
  - injection Hs as <-. unfold commit.
    destruct (length (mutations bd) =? 0)%nat; cbn; auto.
    apply performCommits_single_flight.
    eapply single_flight_committer; [|exact HI]. reflexivity.
  - injection Hs as <-. apply performCommits_single_flight, HI.
  - injection Hs as <-. eapply single_flight_committer; [|exact HI].
    unfold reset. rewrite rebase_committer. reflexivity.
  - injection Hs as <-. exact HI.
  - injection Hs as <-. exact HI.
  - injection Hs as <-. exact HI.
  - destruct (inflight bd) as [|c rest] eqn:Ei; [discriminate|].
    injection Hs as <-. apply _cycleCommitter_single_flight.
    destruct HI as [Hle _]. unfold active_loops in *. rewrite Ei in Hle.
    cbn in *. lia.
  - destruct (inflight bd) as [|c rest] eqn:Ei; [discriminate|].
    injection Hs as <-.
    destruct HI as [Hle Hrun]. unfold active_loops in *. rewrite Ei in *.
    unfold single_flight, active_loops, responder_failure.
    destruct (bool_decide (LOCAL _ <> None)); cbn in *;
      (split; [lia | intros _; apply Hrun; lia]).
  - destruct (timers bd) as [|n] eqn:Et; [discriminate|].
    injection Hs as <-. apply _cycleCommitter_single_flight.
    destruct HI as [Hle _]. unfold active_loops in *. rewrite Et in Hle.
    cbn in *. lia.
  - injection Hs as <-. eapply single_flight_committer; [|exact HI].
    rewrite handleDocMutation_committer. reflexivity.
  - injection Hs as <-. eapply single_flight_committer; [|exact HI].
    unfold handleDocRebase. rewrite rebase_committer. reflexivity.
  - injection Hs as <-. exact HI.
Qed.

Lemma run_single_flight (ins : list input) bd bd' :
  run Mutation_apply Mutation_squash ins bd = Some bd' ->
  single_flight bd -> single_flight bd'.
Proof.
  revert bd. induction ins as [|i ins IH]; cbn; intros bd Hr HI.
  - injection Hr as <-. exact HI.
  - destruct (step _ _ i bd) as [bd1|] eqn:Es; [|discriminate].
    eauto using step_single_flight.
Qed.

(** C7. [performCommits()] throws exactly when no [commitHandler] is set,
    and then it is the configuration error, with the engine untouched; with
    a handler set and a committer running it does nothing; and in every
    state an engine reaches from its construction, whatever the caller, the
    transport, the timers and the tracker do, at most one committer loop is
    alive. *)
Theorem performCommits_config_error_and_single_flight :
  (forall (txn : N) bd,
      (exists msg, snd (performCommits Mutation_squash txn bd) = Threw msg)
      <-> commitHandler bd = false) /\
  (forall (txn : N) bd,
      commitHandler bd = false ->
      performCommits Mutation_squash txn bd =
      (bd, Threw "No commitHandler configured for this BufferedDocument")) /\
  (forall (txn : N) bd,
      commitHandler bd = true -> committerRunning bd = true ->
      performCommits Mutation_squash txn bd = (bd, Returned)) /\
  (forall (ins : list input) (h : heap) (doc : ref) bd,
      run Mutation_apply Mutation_squash ins (constructor h doc) = Some bd ->
      active_loops bd <= 1).
Proof.
  split; [|split; [|split]].
  - intros txn bd. split.
    + intros [msg Hm]. unfold performCommits, _cycleCommitter in Hm.
      destruct (commitHandler bd) eqn:Hc; auto. cbn in Hm.
      destruct (committerRunning bd); cbn in Hm; [discriminate|].
      destruct (commits bd); cbn in Hm; rewrite ?Hc in Hm; discriminate.
    + intros Hc. unfold performCommits. rewrite Hc. cbn. eauto.
  - intros txn bd Hc. unfold performCommits. rewrite Hc. reflexivity.
  - intros txn bd Hc Hr. unfold performCommits. rewrite Hc, Hr. reflexivity.
  - intros ins h doc bd Hr.
    apply (run_single_flight _ _ _ Hr). split; cbn; [lia|]. cbn. lia.
Qed.

(** ** Arrival of a remote mutation *)

Lemma handleDocumentDeleted_frame bd :
  EDGE (handleDocumentDeleted bd) = EDGE bd /\
  exists evs, trace (handleDocumentDeleted bd) = trace bd ++ evs.
Proof.
  unfold handleDocumentDeleted.
  destruct (_ && _); cbn; (split; [reflexivity|]).
  - eauto.
  - exists []. symmetry. apply app_nil_r.
Qed.

Lemma isEqual_refl (h : heap) (r : ref) : isEqual h r r = true.
Proof. unfold isEqual. apply bool_decide_eq_true_2. reflexivity. Qed.

Lemma handleDocMutation_nothing_pending (msg : Msg) bd :
  commits bd = [] -> mutations bd = [] ->
  handleDocMutation Mutation_apply msg bd =
  let bd1 := with_LOCAL (EDGE bd) bd in
  let bd2 := if onMutation bd then emit (OnMutationMsg msg) bd1 else bd1 in
  match EDGE bd with
  | Some e => with_store (copy_rev (store bd) e e) bd2
  | None => bd2
  end.
Proof.
  destruct bd as [h e l cs ms onM onR onD cH rn fl tm tr]; cbn.
  intros -> ->. unfold handleDocMutation, rebase, handleDocumentDeleted. cbn.
  destruct onM, e as [e|]; cbn; rewrite ?isEqual_refl; reflexivity.
Qed.

(** C6. When a remote mutation is notified and nothing is pending (empty
    queue, empty buffer), the engine takes the tracker's snapshot itself as
    optimistic snapshot and passes the message, as it is, to the
    [onMutation] handler, and that is all the caller hears; and whatever is
    pending, the handling ends with a run of [rebase] on the tracker's
    snapshot, so that the optimistic snapshot it leaves is the snapshot
    recomputed from the authoritative one. *)
Theorem handleDocMutation_fast_path_then_rebase (msg : Msg) bd :
  (commits bd = [] -> mutations bd = [] ->
   let bd' := handleDocMutation Mutation_apply msg bd in
   LOCAL bd' = EDGE bd /\
   trace bd' = trace bd ++ (if onMutation bd then [OnMutationMsg msg] else [])) /\
  (exists mid evs,
      handleDocMutation Mutation_apply msg bd = rebase Mutation_apply mid /\
      EDGE mid = EDGE bd /\
      trace mid = trace bd ++ evs /\
      LOCAL (handleDocMutation Mutation_apply msg bd) =
      snd (recompute Mutation_apply (purge_if_deleted mid))).
Proof.
  split.
  - intros Hc Hm. cbn zeta. rewrite handleDocMutation_nothing_pending by assumption.
    cbn zeta. destruct (onMutation bd), (EDGE bd); cbn;
      rewrite ?app_nil_r; split; reflexivity.
  - unfold handleDocMutation.
    match goal with
    | |- context [rebase _ (if _ then handleDocumentDeleted ?x else _)] =>
        set (bd1 := x)
    end.
    set (mid := if bool_decide (EDGE bd1 = None) then _ else bd1).
    assert (H1 : EDGE bd1 = EDGE bd /\ exists evs, trace bd1 = trace bd ++ evs).
    { subst bd1. destruct (_ && _); [destruct (onMutation _)|]; cbn;
        (split; [reflexivity|]); eexists; try reflexivity.
      all: symmetry; apply app_nil_r. }
    destruct H1 as [He1 [evs1 Ht1]].
    assert (H2 : EDGE mid = EDGE bd /\ exists evs, trace mid = trace bd ++ evs).
    { subst mid. destruct (bool_decide (EDGE bd1 = None)); [|eauto].
      destruct (handleDocumentDeleted_frame bd1) as [-> [evs ->]].
      rewrite Ht1, <- app_assoc. eauto. }
    destruct H2 as [He2 [evs2 Ht2]].
    exists mid, evs2. repeat split; auto.
    clearbody mid. clear. unfold rebase, recompute, purge_if_deleted.
    set (bd0 := if bool_decide (EDGE mid = None) then _ else mid).
    clearbody bd0.
    destruct (fold_left _ _ _) as [h l].
    destruct (Mutation_applyAll _ _ _ _) as [h' l']. cbn.
    destruct (LOCAL bd0), l'; cbn; split_branches; reflexivity.
Qed.

(** ** rebase *)

Lemma rebase_eq bd (h : heap) (l : ref) :
  recompute Mutation_apply (purge_if_deleted bd) = (h, l) ->
  rebase Mutation_apply bd =
  let bd0 := purge_if_deleted bd in
  let h' := match LOCAL bd0, l with
            | Some o, Some n => copy_rev h o n
            | _, _ => h
            end in
  let bd1 := with_LOCAL l (with_store h' bd0) in
  if negb (isEqual h' l (LOCAL bd0)) && onRebase bd0
  then emit (OnRebase l) bd1
  else bd1.
Proof.
  unfold rebase, recompute. fold (purge_if_deleted bd).
  generalize (purge_if_deleted bd) as bd0. intros bd0.
  destruct (fold_left _ _ _) as [h1 l1].
  destruct (Mutation_applyAll _ _ _ _) as [h2 l2].
  intros [= -> ->].
  destruct bd0 as [h0 e l0 cs ms onM onR onD cH rn fl tm tr]; cbn.
  destruct l0, l; reflexivity.
Qed.

Lemma purge_if_deleted_onRebase bd :
  onRebase (purge_if_deleted bd) = onRebase bd.
Proof.
  unfold purge_if_deleted, handleDocumentDeleted. split_branches; reflexivity.
Qed.

(** With the revision of [n] written over that of [o], the two objects are
    equal exactly when they agree outside the revision, as long as [n]
    carries a revision. *)
Lemma rev_copied_equal (o n : obj) :
  is_Some (n !! "_rev"%string) ->
  n = set_prop o "_rev" (get_prop n "_rev") <->
  delete "_rev"%string n = delete "_rev"%string o.
Proof.
  intros [v Hv]. unfold set_prop, get_prop. rewrite Hv. cbn. split.
  - intros ->. rewrite delete_insert_eq. reflexivity.
  - intros Hd. rewrite <- (insert_delete_id n "_rev"%string v Hv), Hd.
    rewrite insert_delete_eq. reflexivity.
Qed.

(** What [rebase] does when the recomputed snapshot carries a revision
    marker (or is the deleted sentinel): the [onRebase] handler is called,
    with the new snapshot, exactly when the content changed, the revision
    set aside. *)
Lemma rebase_notifies_iff_content_changed bd (h : heap) (l : ref) :
  let bd0 := purge_if_deleted bd in
  recompute Mutation_apply bd0 = (h, l) ->
  ref_ok h (LOCAL bd0) ->
  (forall n, l = Some n ->
             exists nn, h !! n = Some nn /\ is_Some (nn !! "_rev"%string)) ->
  trace (rebase Mutation_apply bd) =
  trace bd0 ++
  (if onRebase bd && negb (bool_decide (same_content (deref h l) (deref h (LOCAL bd0))))
   then [OnRebase l] else []).
Proof.
  intros bd0 Hre Hok Hrev. rewrite (rebase_eq _ _ _ Hre). fold bd0.
  rewrite <- (purge_if_deleted_onRebase bd). fold bd0. cbn zeta.
  assert (Hchg :
    isEqual (match LOCAL bd0, l with
             | Some o, Some n => copy_rev h o n
             | _, _ => h
             end) l (LOCAL bd0)
    = bool_decide (same_content (deref h l) (deref h (LOCAL bd0)))).
  { unfold isEqual. apply bool_decide_ext. unfold same_content.
    destruct (LOCAL bd0) as [o|], l as [n|]; cbn in *.
    - destruct (Hrev n eq_refl) as (nn & Hn & Hr).
      destruct (lookup_lt_is_Some_2 h o Hok) as [oo Ho].
      unfold copy_rev. rewrite Hn, Ho.
      destruct (decide (o = n)) as [->|Hne].
      + assert (oo = nn) as -> by congruence. split; intros _; reflexivity.
      + rewrite list_lookup_insert_ne by exact Hne.
        rewrite list_lookup_insert_eq by exact Hok. rewrite Hn. cbn.
        pose proof (rev_copied_equal oo nn Hr) as Hiff.
        split; intros [= Heq]; f_equal; tauto.
    - destruct (lookup_lt_is_Some_2 h o Hok) as [oo ->]. cbn. split; discriminate.
    - destruct (Hrev n eq_refl) as (nn & -> & _). cbn. split; discriminate.
    - split; intros _; reflexivity. }
  rewrite Hchg.
  destruct (onRebase bd0), (bool_decide _); cbn; rewrite ?app_nil_r; reflexivity.
Qed.

(** The write of [rebase] into the previous optimistic snapshot: when the
    previous and the recomputed snapshot are both objects, the previous one
    ends up with the revision of the new one. *)
Lemma rebase_writes_previous_snapshot bd (h : heap) (o n : nat) (oo nn : obj) :
  let bd0 := purge_if_deleted bd in
  LOCAL bd0 = Some o ->
  recompute Mutation_apply bd0 = (h, Some n) ->
  h !! o = Some oo ->
  h !! n = Some nn ->
  LOCAL (rebase Mutation_apply bd) = Some n /\
  store (rebase Mutation_apply bd) !! o =
  Some (set_prop oo "_rev" (get_prop nn "_rev")).
Proof.
  intros bd0 Hl Hre Ho Hn. rewrite (rebase_eq _ _ _ Hre). fold bd0.
  cbn zeta. rewrite Hl.
  assert (Hlt : o < length h) by (apply lookup_lt_is_Some; eauto).
  destruct (_ && _); cbn; unfold copy_rev; rewrite Hn, Ho;
    rewrite list_lookup_insert_eq by exact Hlt; split; reflexivity.
Qed.

(** ** The optimistic snapshot against the recomputation *)

Lemma ref_ok_app (h ext : heap) (r : ref) : ref_ok h r -> ref_ok (h ++ ext) r.
Proof. destruct r; cbn; [rewrite length_app; lia | trivial]. Qed.

Lemma deref_app (h ext : heap) (r : ref) :
  ref_ok h r -> deref (h ++ ext) r = deref h r.
Proof. destruct r; cbn; [apply lookup_app_l | trivial]. Qed.

Section Pure.

Variable apply_value : Mutation -> option obj -> option obj.
Hypothesis Hpure : pure_apply Mutation_apply apply_value.

Lemma applyAll_pure (ms : list Mutation) (h : heap) (r : ref) :
  ref_ok h r ->
  exists ext,
    fst (Mutation_applyAll Mutation_apply h r ms) = h ++ ext /\
    ref_ok (h ++ ext) (snd (Mutation_applyAll Mutation_apply h r ms)) /\
    deref (h ++ ext) (snd (Mutation_applyAll Mutation_apply h r ms)) =
    applyAll_value apply_value ms (deref h r).
Proof.
  revert h r. induction ms as [|m ms IH]; intros h r Hok; cbn.
  - exists []. rewrite app_nil_r. auto.
  - destruct (Hpure m h r Hok) as (e1 & Hh & Hok1 & Hv).
    destruct (Mutation_apply m h r) as [h1 r1]; cbn in *. subst h1.
    destruct (IH _ _ Hok1) as (e2 & Hh2 & Hok2 & Hv2).
    exists (e1 ++ e2). rewrite app_assoc. rewrite Hh2 in *.
    rewrite Hv2, Hv. auto.
Qed.

Lemma commits_pure (cs : list (Commit Mutation)) (h : heap) (r : ref) :
  ref_ok h r ->
  let res := fold_left (fun '(h, doc) commit => Commit_apply Mutation_apply h doc commit)
               cs (h, r) in
  exists ext,
    fst res = h ++ ext /\
    ref_ok (h ++ ext) (snd res) /\
    deref (h ++ ext) (snd res) =
    fold_left (fun v c => applyAll_value apply_value (Commit_mutations c) v)
      cs (deref h r).
Proof.
  cbn zeta.
  set (F := fun '(h, doc) commit => Commit_apply Mutation_apply h doc commit).
  revert h r. induction cs as [|c cs IH]; intros h r Hok.
  - exists []. cbn. rewrite app_nil_r. auto.
  - cbn [fold_left].
    destruct (applyAll_pure (Commit_mutations c) h r Hok) as (e1 & Hh & Hok1 & Hv).
    assert (HF : F (h, r) c = Mutation_applyAll Mutation_apply h r (Commit_mutations c))
      by reflexivity.
    rewrite HF.
    destruct (Mutation_applyAll _ h r _) as [h1 r1]; cbn [fst snd] in *. subst h1.
    destruct (IH _ _ Hok1) as (e2 & Hh2 & Hok2 & Hv2).
    exists (e1 ++ e2). rewrite app_assoc, Hh2, Hv2, Hv. auto.
Qed.




End Pure.




End Properties.

(** * The engine at work on the sample algebra *)

Lemma Sample_apply_pure :
  pure_apply Sample.apply (fun m v => Sample.apply_value m v).
Proof.
  intros m h r Hok. unfold Sample.apply.
  destruct (bool_decide _) eqn:Hb.
  - exists []. rewrite app_nil_r. cbn.
    apply bool_decide_eq_true_1 in Hb. auto.
  - destruct (Sample.apply_value m (deref h r)) as [o|] eqn:Hv.
    + exists [o]. cbn. rewrite length_app. cbn.
      split; [reflexivity|]. split; [lia|].
      rewrite lookup_app_r by lia. rewrite Nat.sub_diag. reflexivity.
    + exists []. rewrite app_nil_r. cbn. auto.
Qed.

Lemma commit_empty_buffer_noop_witness :
  commit Sample.squash 7%N Sample.fresh = (Sample.fresh, Returned).
Proof.
  apply (commit_empty_buffer_noop Sample.squash 7%N Sample.fresh).
  vm_compute. reflexivity.
Defined.

Lemma commit_moves_buffer_to_queue_witness :
  mutations (fst (commit Sample.squash 7%N Sample.edited)) = [] /\
  LOCAL (fst (commit Sample.squash 7%N Sample.edited)) = LOCAL Sample.edited.
Proof.
  assert (Hne : mutations Sample.edited <> []) by (vm_compute; discriminate).
  pose proof (commit_moves_buffer_to_queue Sample.squash 7%N Sample.edited Hne)
    as (Hm & _ & Hl & _ & _).
  split; assumption.
Defined.

(** C9, as first stated, fails: committing on an idle committer leaves the
    queue empty, the new Commit having been dequeued for staging at
    once. *)
Lemma commit_dequeues_at_once :
  mutations Sample.edited <> [] /\
  commits (fst (commit Sample.squash 7%N Sample.edited)) = [] /\
  commits (fst (commit Sample.squash 7%N Sample.edited)) <>
  commits Sample.edited ++ [Commit_new (mutations Sample.edited)].
Proof.
  split; [vm_compute; discriminate|].
  split; [vm_compute; reflexivity|]. vm_compute. discriminate.
Qed.

Lemma performCommits_config_error_and_single_flight_witness :
  performCommits Sample.squash 9%N Sample.submitted =
    (Sample.submitted, Returned) /\
  active_loops Sample.queued_behind <= 1.
Proof.
  pose proof (@performCommits_config_error_and_single_flight
                (list Sample.patch) unit Sample.apply Sample.squash)
    as (_ & _ & Hnoop & Hone).
  split.
  - apply Hnoop; vm_compute; reflexivity.
  - apply (Hone [DoConfigure true true true true;
                 DoAdd (Sample.incField "count" 1); DoCommit 7%N;
                 TransportFailure;
                 DoAdd (Sample.incField "count" 2); DoCommit 8%N]
             [Sample.counter 0] (Some 0%nat)).
    vm_compute. reflexivity.
Defined.

Lemma handleDocMutation_fast_path_then_rebase_witness :
  LOCAL (handleDocMutation Sample.apply tt Sample.behind) = Some 1%nat /\
  trace (handleDocMutation Sample.apply tt Sample.behind) = [OnMutationMsg tt].
Proof.
  pose proof (handleDocMutation_fast_path_then_rebase Sample.apply tt
                Sample.behind) as [H _].
  apply H; vm_compute; reflexivity.
Defined.

(** C1. What the code does when the tracker reports a deletion through a
    mutation notification.  With nothing pending, the fast path has
    already overwritten the optimistic snapshot with the sentinel when
    deletion handling looks at it, and [onDelete] is not called at all;
    with a buffered mutation, deletion handling runs twice, once in
    [handleDocMutation] and once more at the top of [rebase], on an
    optimistic snapshot not yet updated, and [onDelete] is called twice
    with it.  Only when the deletion comes as a rebase request is it called
    once.  Queue and buffer end up empty in every case. *)
Theorem deletion_notified_never_or_twice :
  (LOCAL Sample.fresh = Some 0%nat /\
   onDelete Sample.fresh = true /\
   deletions (trace Sample.deleted_idle) = [] /\
   commits Sample.deleted_idle = [] /\ mutations Sample.deleted_idle = []) /\
  (LOCAL Sample.edited = Some 1%nat /\
   onDelete Sample.edited = true /\
   deletions (trace Sample.deleted_pending) = [Some 1%nat; Some 1%nat] /\
   commits Sample.deleted_pending = [] /\
   mutations Sample.deleted_pending = []) /\
  (deletions (trace Sample.deleted_by_rebase) = [Some 1%nat] /\
   commits Sample.deleted_by_rebase = [] /\
   mutations Sample.deleted_by_rebase = []).
Proof. repeat split; vm_compute; reflexivity. Qed.

(** C3. What the code does on snapshots without a [_rev] property:
    rebasing [edited], whose recomputed snapshot [{count: 1}] has the very
    content of the previous one, calls [onRebase] all the same, and
    rebasing again at once calls it again.  The copy of the revision has
    given the previous object a [_rev] property holding [undefined], which
    the recomputed object does not have, and [isEqual] tells them apart. *)
Theorem rebase_without_revision_notifies_again :
  deref (store Sample.edited) (LOCAL Sample.edited) = Some (Sample.counter 1) /\
  deref (store Sample.rebased_once) (LOCAL Sample.rebased_once) =
    Some (Sample.counter 1) /\
  deref (store Sample.rebased_twice) (LOCAL Sample.rebased_twice) =
    Some (Sample.counter 1) /\
  onRebase Sample.edited = true /\
  trace Sample.rebased_once = trace Sample.edited ++ [OnRebase (Some 2%nat)] /\
  trace Sample.rebased_twice =
    trace Sample.rebased_once ++ [OnRebase (Some 3%nat)] /\
  deref (store Sample.rebased_once) (LOCAL Sample.edited) =
    Some (set_prop (Sample.counter 1) "_rev" VUndefined).
Proof. repeat split; vm_compute; reflexivity. Qed.

(** C10. [rebase] writes into the previous optimistic snapshot: when the
    previous and the recomputed snapshot are both objects, the previous
    object has the revision of the recomputed one afterwards.  That object
    may be one the caller already holds: the snapshot
    [{count: 1, _rev: "r1"}] that [add] handed to [onMutation] reads
    [{count: 1, _rev: "r2"}] once the tracker has moved on. *)
Theorem rebase_overwrites_delivered_snapshot :
  (forall (Mutation Msg : Type)
          (Mutation_apply : Mutation -> heap -> ref -> heap * ref)
          (bd : BufferedDocument Mutation Msg)
          (h : heap) (o n : nat) (oo nn : obj),
      let bd0 := purge_if_deleted bd in
      LOCAL bd0 = Some o ->
      recompute Mutation_apply bd0 = (h, Some n) ->
      h !! o = Some oo ->
      h !! n = Some nn ->
      LOCAL (rebase Mutation_apply bd) = Some n /\
      store (rebase Mutation_apply bd) !! o =
      Some (set_prop oo "_rev" (get_prop nn "_rev"))) /\
  (trace Sample.edited_rev =
     [OnMutation (Sample.incField "count" 1) (Some 1%nat) false] /\
   store Sample.edited_rev !! 1%nat = Some (Sample.counter_rev 1 "r1") /\
   trace Sample.moved_rev =
     trace Sample.edited_rev ++ [OnRebase (Some 3%nat)] /\
   store Sample.moved_rev !! 1%nat = Some (Sample.counter_rev 1 "r2")).
Proof.
  split.
  - intros. eapply rebase_writes_previous_snapshot; eauto.
  - repeat split; vm_compute; reflexivity.
Qed.

Lemma rebase_overwrites_delivered_snapshot_witness :
  LOCAL (rebase Sample.apply Sample.edited_rev) = Some 2%nat /\
  store (rebase Sample.apply Sample.edited_rev) !! 1%nat =
  Some (set_prop (Sample.counter_rev 1 "r1") "_rev"
          (get_prop (Sample.counter_rev 1 "r1") "_rev")).
Proof.
  pose proof rebase_overwrites_delivered_snapshot as [H _].
  apply (H _ unit Sample.apply Sample.edited_rev
           (store Sample.edited_rev ++ [Sample.counter_rev 1 "r1"])
           1%nat 2%nat); vm_compute; reflexivity.
Defined.

(** * More of the engine *)

Section Lifecycle.

Context {Mutation Msg : Type}.
Variable Mutation_apply : Mutation -> heap -> ref -> heap * ref.
Variable Mutation_squash : heap -> ref -> list Mutation -> Mutation.

Implicit Types bd : BufferedDocument Mutation Msg.
Implicit Types c : Commit Mutation.

Lemma purge_if_deleted_live bd : EDGE bd <> None -> purge_if_deleted bd = bd.
Proof.
  intros He. unfold purge_if_deleted.
  rewrite bool_decide_eq_false_2 by exact He. reflexivity.
Qed.

Lemma deletions_app (tr1 tr2 : list (event Mutation Msg)) :
  deletions (tr1 ++ tr2) = deletions tr1 ++ deletions tr2.
Proof. unfold deletions. apply flat_map_app. Qed.

Lemma staged_app (tr1 tr2 : list (event Mutation Msg)) :
  staged (tr1 ++ tr2) = staged tr1 ++ staged tr2.
Proof. unfold staged. apply flat_map_app. Qed.

(** ** rebase on a live and on a deleted document *)

Lemma rebase_live_fields bd (bd' := rebase Mutation_apply bd) :
  EDGE bd <> None ->
  commits bd' = commits bd /\
  mutations bd' = mutations bd /\
  EDGE bd' = EDGE bd /\
  committer_state bd' = committer_state bd /\
  (trace bd' = trace bd \/ trace bd' = trace bd ++ [OnRebase (LOCAL bd')]).
Proof.
  intros He. subst bd'.
  destruct (recompute Mutation_apply (purge_if_deleted bd)) as [h l] eqn:Hre.
  rewrite (rebase_eq _ _ _ _ Hre), (purge_if_deleted_live _ He). cbn zeta.
  destruct (_ && _); cbn; auto 10.
Qed.

Lemma handleDocMutation_live_fields (msg : Msg) bd
    (bd' := handleDocMutation Mutation_apply msg bd) :
  EDGE bd <> None ->
  commits bd' = commits bd /\
  mutations bd' = mutations bd /\
  committer_state bd' = committer_state bd.
Proof.
  intros He. subst bd'. unfold handleDocMutation.
  match goal with
  | |- context [rebase _ (if _ then handleDocumentDeleted ?x else _)] =>
      set (bd1 := x)
  end.
  assert (H1 : EDGE bd1 = EDGE bd /\ commits bd1 = commits bd /\
               mutations bd1 = mutations bd /\
               committer_state bd1 = committer_state bd).
  { subst bd1. destruct (_ && _); [destruct (onMutation _)|]; cbn; auto. }
  destruct H1 as (E1 & C1 & M1 & S1).
  rewrite bool_decide_eq_false_2 by congruence.
  destruct (rebase_live_fields bd1) as (Hc2 & Hm2 & _ & Hs2 & _); [congruence|].
  rewrite Hc2, Hm2, Hs2. auto.
Qed.

Lemma copy_rev_length (h : heap) (o n : nat) :
  length (copy_rev h o n) = length h.
Proof.
  unfold copy_rev. destruct (h !! n), (h !! o); auto using length_insert.
Qed.

Lemma copy_rev_other (h : heap) (o n k : nat) :
  k <> o -> copy_rev h o n !! k = h !! k.
Proof.
  intros Hk. unfold copy_rev. destruct (h !! n), (h !! o); auto.
  apply list_lookup_insert_ne. congruence.
Qed.

Lemma copy_rev_self (h : heap) (n : nat) (nn : obj) :
  h !! n = Some nn -> is_Some (nn !! "_rev"%string) -> copy_rev h n n = h.
Proof.
  intros Hn [v Hv]. unfold copy_rev, set_prop, get_prop. rewrite Hn, Hv. cbn.
  rewrite (insert_id nn _ _ Hv). apply list_insert_id, Hn.
Qed.

(** The state [rebase] leaves, from the recomputation it made. *)
Lemma rebase_state bd (h : heap) (l : ref) :
  let bd0 := purge_if_deleted bd in
  recompute Mutation_apply bd0 = (h, l) ->
  let bd' := rebase Mutation_apply bd in
  store bd' = match LOCAL bd0, l with
              | Some o, Some n => copy_rev h o n
              | _, _ => h
              end /\
  LOCAL bd' = l /\
  EDGE bd' = EDGE bd0 /\
  commits bd' = commits bd0 /\
  mutations bd' = mutations bd0.
Proof.
  intros bd0 Hre. cbn zeta. rewrite (rebase_eq _ _ _ _ Hre). fold bd0.
  cbn zeta. destruct (_ && _); cbn; auto.
Qed.

Lemma rebase_live_state bd (h : heap) (l : ref) :
  EDGE bd <> None ->
  recompute Mutation_apply bd = (h, l) ->
  let bd' := rebase Mutation_apply bd in
  store bd' = match LOCAL bd, l with
              | Some o, Some n => copy_rev h o n
              | _, _ => h
              end /\
  LOCAL bd' = l /\
  EDGE bd' = EDGE bd /\
  commits bd' = commits bd /\
  mutations bd' = mutations bd.
Proof.
  intros He Hre. pose proof (rebase_state bd h l) as H.
  rewrite (purge_if_deleted_live bd He) in H. exact (H Hre).
Qed.

(** X1. While the authoritative snapshot is an object, [rebase] leaves the
    queue, the buffer, the reference to the authoritative snapshot and the
    committer alone and makes the recomputed snapshot the optimistic one.
    In the store the recomputation has left, it writes to one object at
    most, the previous optimistic snapshot, whose [_rev] becomes that of
    the recomputed one; this is the authoritative object when the previous
    optimistic snapshot was that object.  It calls [onDelete] never, and
    nothing but, at most once, [onRebase] with the new optimistic
    snapshot. *)
Theorem rebase_live_keeps_pending_work bd (h : heap) (l : ref) :
  EDGE bd <> None ->
  recompute Mutation_apply bd = (h, l) ->
  let bd' := rebase Mutation_apply bd in
  commits bd' = commits bd /\
  mutations bd' = mutations bd /\
  EDGE bd' = EDGE bd /\
  committer_state bd' = committer_state bd /\
  LOCAL bd' = l /\
  store bd' = match LOCAL bd, l with
              | Some o, Some n => copy_rev h o n
              | _, _ => h
              end /\
  (forall k : nat, Some k <> LOCAL bd -> store bd' !! k = h !! k) /\
  (trace bd' = trace bd \/ trace bd' = trace bd ++ [OnRebase l]).
Proof.
  intros He Hre bd'.
  destruct (rebase_live_fields bd He) as (Hc & Hm & Hedge & Hcs & Ht).
  destruct (rebase_live_state bd h l He Hre) as (Hs & Hl & _).
  fold bd' in Hc, Hm, Hedge, Hcs, Ht, Hs, Hl.
  rewrite Hl in Ht.
  repeat (split; [assumption|]). split; [|exact Ht].
  intros k Hk. rewrite Hs.
  destruct (LOCAL bd) as [o|], l as [n|]; try reflexivity.
  apply copy_rev_other. congruence.
Qed.

(** X2. Once the authoritative snapshot is the deleted sentinel, [rebase]
    empties queue and buffer, makes the optimistic snapshot the sentinel
    and leaves the store alone; if the optimistic snapshot was an object it
    calls [onDelete] with it and then [onRebase] with [null] (each when its
    handler is set), and otherwise it calls nothing. *)
Theorem rebase_deleted_purges bd :
  EDGE bd = None ->
  ref_ok (store bd) (LOCAL bd) ->
  let bd' := rebase Mutation_apply bd in
  let was_object := bool_decide (LOCAL bd <> None) in
  LOCAL bd' = None /\
  commits bd' = [] /\
  mutations bd' = [] /\
  store bd' = store bd /\
  trace bd' =
    trace bd ++
    (if was_object && onDelete bd then [OnDelete (LOCAL bd)] else []) ++
    (if was_object && onRebase bd then [OnRebase None] else []).
Proof.
  intros He Hok.
  destruct bd as [h e l cs ms onM onR onD cH rn fl tm tr]; cbn in *. subst e.
  unfold rebase, handleDocumentDeleted, isEqual. cbn.
  destruct l as [o|]; cbn.
  - destruct (lookup_lt_is_Some_2 h o Hok) as [oo Ho].
    destruct onD, onR; cbn; rewrite Ho; cbn;
      (case_bool_decide; [discriminate|]); cbn;
      rewrite <- ?app_assoc, ?app_nil_r; repeat split; reflexivity.
  - rewrite app_nil_r. repeat split; reflexivity.
Qed.


(** X4. A remote mutation that finds local work pending on a live document
    is not passed on: the handling is [rebase] and nothing else, whatever
    the message. *)
Theorem handleDocMutation_pending_is_rebase (msg : Msg) bd :
  commits bd <> [] \/ mutations bd <> [] ->
  EDGE bd <> None ->
  handleDocMutation Mutation_apply msg bd = rebase Mutation_apply bd.
Proof.
  intros Hp He. unfold handleDocMutation.
  assert (Hb : (length (commits bd) =? 0)%nat && (length (mutations bd) =? 0)%nat
               = false).
  { destruct Hp as [H | H]; rewrite (length_zero_cons _ H);
      [reflexivity | apply andb_false_r]. }
  rewrite Hb. rewrite bool_decide_eq_false_2 by exact He. reflexivity.
Qed.

Lemma rebase_nothing_pending bd :
  commits bd = [] ->
  mutations bd = [] ->
  let bd' := rebase Mutation_apply bd in
  LOCAL bd' = EDGE bd /\
  EDGE bd' = EDGE bd /\
  commits bd' = [] /\
  mutations bd' = [] /\
  (LOCAL bd = EDGE bd -> trace bd' = trace bd).
Proof.
  intros Hc Hm.
  destruct bd as [h e l cs ms onM onR onD cH rn fl tm tr]; cbn in *. subst cs ms.
  unfold rebase, handleDocumentDeleted. cbn.
  destruct e as [e|]; cbn.
  - destruct l as [l|]; cbn.
    + destruct (negb _ && onR) eqn:Hn; cbn; repeat split; try reflexivity;
        intros [= ->]; try reflexivity.
      rewrite isEqual_refl in Hn. discriminate.
    + destruct (negb _ && onR) eqn:Hn; cbn; repeat split; try reflexivity;
        discriminate.
  - destruct l as [l|]; cbn.
    + destruct onD; cbn; destruct (negb _ && onR); cbn;
        repeat split; try reflexivity; discriminate.
    + repeat split; reflexivity.
Qed.

(** X5. With nothing pending, [rebase] makes the optimistic snapshot the
    authoritative one, and a second [rebase] right after it calls no
    handler. *)
Theorem rebase_twice_nothing_pending bd :
  commits bd = [] ->
  mutations bd = [] ->
  let once := rebase Mutation_apply bd in
  let twice := rebase Mutation_apply once in
  LOCAL once = EDGE bd /\
  LOCAL twice = EDGE bd /\
  trace twice = trace once.
Proof.
  intros Hc Hm once twice.
  destruct (rebase_nothing_pending bd Hc Hm) as (Hl & He & Hc1 & Hm1 & _).
  fold once in Hl, He, Hc1, Hm1.
  destruct (rebase_nothing_pending once Hc1 Hm1) as (Hl2 & _ & _ & _ & Ht).
  fold twice in Hl2, Ht.
  split; [exact Hl|]. split; [congruence|]. apply Ht. congruence.
Qed.

Lemma applyAll_app (ms1 ms2 : list Mutation) (h : heap) (r : ref) :
  Mutation_applyAll Mutation_apply h r (ms1 ++ ms2) =
  let '(h1, r1) := Mutation_applyAll Mutation_apply h r ms1 in
  Mutation_applyAll Mutation_apply h1 r1 ms2.
Proof.
  revert h r. induction ms1 as [|m ms1 IH]; intros h r; cbn.
  - reflexivity.
  - destruct (Mutation_apply m h r) as [h' r']. apply IH.
Qed.

(** X6. The recomputation of [rebase] does not see where one commit ends
    and the next begins: it is the replay, on the authoritative snapshot,
    of all the queued mutations and then the buffered ones as one list. *)
Theorem recompute_ignores_commit_boundaries bd :
  recompute Mutation_apply bd =
  Mutation_applyAll Mutation_apply (store bd) (EDGE bd)
    (concat (map Commit_mutations (commits bd)) ++ mutations bd).
Proof.
  unfold recompute. rewrite applyAll_app.
  generalize (store bd) (EDGE bd). induction (commits bd) as [|c cs IH]; intros h r.
  - reflexivity.
  - cbn [fold_left map concat]. rewrite applyAll_app.
    unfold Commit_apply at 2.
    destruct (Mutation_applyAll Mutation_apply h r (Commit_mutations c)) as [h1 r1].
    apply IH.
Qed.

End Lifecycle.

Section Committer.

Context {Mutation Msg : Type}.
Variable Mutation_apply : Mutation -> heap -> ref -> heap * ref.
Variable Mutation_squash : heap -> ref -> list Mutation -> Mutation.

Implicit Types bd : BufferedDocument Mutation Msg.
Implicit Types c : Commit Mutation.

#[local] Arguments staged : simpl never.
#[local] Arguments responder_failure : simpl never.
#[local] Arguments _cycleCommitter : simpl never.

Lemma staged_cons (e : event Mutation Msg) (tr : list (event Mutation Msg)) :
  staged (e :: tr) =
  match e with DocStage sq => [sq] | _ => [] end ++ staged tr.
Proof. reflexivity. Qed.

Lemma staged_nil : staged ([] : list (event Mutation Msg)) = [].
Proof. reflexivity. Qed.

(** Push [staged] through a trace written out event by event. *)
Ltac staged_events :=
  rewrite ?staged_app, ?staged_cons, ?staged_nil; cbn [app];
  rewrite ?app_nil_r, <- ?app_assoc; cbn [app].

(** ** One iteration of the committer, one callback *)

Lemma _cycleCommitter_stages (txn : N) c (rest : list (Commit Mutation)) bd
    (bd' := fst (_cycleCommitter Mutation_squash txn bd)) :
  commits bd = c :: rest ->
  commitHandler bd = true ->
  commits bd' = rest /\
  inflight bd' = inflight bd ++ [c] /\
  committerRunning bd' = true /\
  commitHandler bd' = true /\
  mutations bd' = mutations bd /\
  LOCAL bd' = LOCAL bd /\
  store bd' = store bd /\
  timers bd' = timers bd /\
  staged (trace bd') =
    staged (trace bd) ++
    [Commit_squash Mutation_squash (store bd) (LOCAL bd) c txn].
Proof.
  intros Hc Hh. subst bd'. unfold _cycleCommitter. rewrite Hc. cbn.
  rewrite Hh. cbn.
  staged_events. repeat split; try reflexivity; assumption.
Qed.

Lemma _cycleCommitter_stages_trace (txn : N) c (rest : list (Commit Mutation)) bd :
  commits bd = c :: rest ->
  commitHandler bd = true ->
  trace (fst (_cycleCommitter Mutation_squash txn bd)) =
  trace bd ++
  [DocStage (Commit_squash Mutation_squash (store bd) (LOCAL bd) c txn);
   CommitHandler (Commit_squash Mutation_squash (store bd) (LOCAL bd) c txn)].
Proof.
  intros Hc Hh. unfold _cycleCommitter. rewrite Hc. cbn.
  rewrite Hh. cbn. rewrite <- app_assoc. reflexivity.
Qed.

Lemma _cycleCommitter_stops (txn : N) bd :
  commits bd = [] ->
  fst (_cycleCommitter Mutation_squash txn bd) = with_committerRunning false bd.
Proof. intros Hc. unfold _cycleCommitter. rewrite Hc. reflexivity. Qed.

Lemma step_success (txn : N) c bd :
  inflight bd = [c] ->
  step Mutation_apply Mutation_squash (TransportSuccess txn) bd =
  Some (fst (_cycleCommitter Mutation_squash txn
               (docResponder_success (with_inflight [] bd)))).
Proof. intros Hi. cbn. rewrite Hi. reflexivity. Qed.

Lemma step_failure c bd :
  inflight bd = [c] ->
  step Mutation_apply Mutation_squash TransportFailure bd =
  Some (responder_failure c (with_inflight [] bd)).
Proof. intros Hi. cbn. rewrite Hi. reflexivity. Qed.

Lemma step_timer (txn : N) (n : nat) bd :
  timers bd = S n ->
  step Mutation_apply Mutation_squash (TimerFires txn) bd =
  Some (fst (_cycleCommitter Mutation_squash txn (with_timers n bd))).
Proof. intros Ht. cbn. rewrite Ht. reflexivity. Qed.

Lemma responder_failure_fields c bd (bd' := responder_failure c bd) :
  commits bd' =
    (if bool_decide (LOCAL bd <> None)
     then mkCommit (Commit_mutations c) (Commit_tries c + 1) :: commits bd
     else commits bd) /\
  inflight bd' = inflight bd /\
  timers bd' = S (timers bd) /\
  commitHandler bd' = commitHandler bd /\
  committerRunning bd' = committerRunning bd /\
  mutations bd' = mutations bd /\
  LOCAL bd' = LOCAL bd /\
  store bd' = store bd /\
  staged (trace bd') = staged (trace bd).
Proof.
  subst bd'. unfold responder_failure.
  destruct (bool_decide (LOCAL bd <> None)); cbn; staged_events;
    rewrite ?Nat.add_1_r; repeat split; reflexivity.
Qed.

Lemma run_app (ins1 ins2 : list input) bd :
  run Mutation_apply Mutation_squash (ins1 ++ ins2) bd =
  match run Mutation_apply Mutation_squash ins1 bd with
  | Some bd1 => run Mutation_apply Mutation_squash ins2 bd1
  | None => None
  end.
Proof.
  revert bd. induction ins1 as [|i ins1 IH]; intros bd; cbn; [reflexivity|].
  destruct (step _ _ i bd); [apply IH | reflexivity].
Qed.

Lemma run_two (i1 i2 : input) bd bd1 bd2 :
  step Mutation_apply Mutation_squash i1 bd = Some bd1 ->
  step Mutation_apply Mutation_squash i2 bd1 = Some bd2 ->
  run Mutation_apply Mutation_squash [i1; i2] bd = Some bd2.
Proof. intros H1 H2. cbn [run]. rewrite H1, H2. reflexivity. Qed.

(** ** A transport that succeeds *)

(** X7. With one commit out with the transport, as many successes as it
    takes drain the queue in order: each success calls the tracker's
    [docResponder.success] and then stages the next queued commit, squashed
    against the optimistic snapshot with the next transaction identifier,
    and hands it to the transport; the trace grows by exactly these calls.
    After the last success the queue is empty, nothing is with the
    transport and the committer flag is down.  Optimistic snapshot, store
    and buffer are not touched. *)
Theorem success_drains_queue_in_order (txns : list N) c bd :
  commitHandler bd = true ->
  inflight bd = [c] ->
  length txns = S (length (commits bd)) ->
  exists bd',
    run Mutation_apply Mutation_squash (map TransportSuccess txns) bd = Some bd' /\
    commits bd' = [] /\
    inflight bd' = [] /\
    committerRunning bd' = false /\
    LOCAL bd' = LOCAL bd /\
    store bd' = store bd /\
    mutations bd' = mutations bd /\
    staged (trace bd') =
      staged (trace bd) ++
      zip_with (fun c txn => Commit_squash Mutation_squash (store bd) (LOCAL bd) c txn)
        (commits bd) txns /\
    trace bd' =
      trace bd ++ success_events Mutation_squash (store bd) (LOCAL bd) (commits bd) txns.
Proof.
  revert c bd. induction txns as [|t ts IH]; intros c bd Hh Hi Hlen;
    [discriminate|].
  cbn [map run]. rewrite (step_success t c bd Hi).
  set (bd0 := docResponder_success (with_inflight [] bd)).
  assert (Hs0 : staged (trace bd0) = staged (trace bd)).
  { subst bd0. cbn. staged_events. reflexivity. }
  assert (Ht0 : trace bd0 = trace bd ++ [DocResponderSuccess]) by reflexivity.
  destruct (commits bd) as [|c' rest] eqn:Hc.
  - destruct ts; [|discriminate]. cbn [run].
    rewrite (_cycleCommitter_stops t bd0) by exact Hc.
    eexists. split; [reflexivity|]. cbn. fold bd0.
    rewrite app_nil_r. repeat split; try reflexivity; assumption.
  - destruct (_cycleCommitter_stages t c' rest bd0 Hc Hh)
      as (H1 & H2 & H3 & H4 & H5 & H6 & H7 & H8 & H9).
    pose proof (_cycleCommitter_stages_trace t c' rest bd0 Hc Hh) as Ht1.
    destruct (IH c' _ H4 H2) as (bd' & Hr & G1 & G2 & G3 & G4 & G5 & G6 & G7 & G8).
    { rewrite H1. cbn in Hlen. lia. }
    exists bd'. split; [exact Hr|].
    rewrite G4, G5, G6, G7, G8, H1, H6, H7, H5, H9, Hs0, Ht1, Ht0.
    cbn [zip_with success_events]. rewrite <- !app_assoc.
    repeat split; try reflexivity; assumption.
Qed.

(** ** A transport that fails *)

Lemma failure_round (txn : N) c bd :
  commitHandler bd = true ->
  LOCAL bd <> None ->
  inflight bd = [c] ->
  exists bd',
    run Mutation_apply Mutation_squash [TransportFailure; TimerFires txn] bd
      = Some bd' /\
    inflight bd' = [mkCommit (Commit_mutations c) (Commit_tries c + 1)] /\
    commits bd' = commits bd /\
    mutations bd' = mutations bd /\
    LOCAL bd' = LOCAL bd /\
    store bd' = store bd /\
    timers bd' = timers bd /\
    commitHandler bd' = true /\
    staged (trace bd') =
      staged (trace bd) ++
      [(Mutation_squash (store bd) (LOCAL bd) (Commit_mutations c), txn)].
Proof.
  intros Hh Hl Hi.
  set (bd1 := responder_failure c (with_inflight [] bd)).
  destruct (responder_failure_fields c (with_inflight [] bd))
    as (F1 & F2 & F3 & F4 & F5 & F6 & F7 & F8 & F9).
  fold bd1 in F1, F2, F3, F4, F5, F6, F7, F8, F9. cbn in F1, F2, F3, F4, F6, F7, F8, F9.
  rewrite bool_decide_eq_true_2 in F1 by exact Hl.
  destruct (_cycleCommitter_stages txn _ _ (with_timers (timers bd) bd1) F1)
    as (H1 & H2 & H3 & H4 & H5 & H6 & H7 & H8 & H9).
  { cbn. congruence. }
  eexists. split.
  { eapply run_two; [apply step_failure, Hi | apply step_timer, F3]. }
  fold bd1. cbn in H2, H5, H6, H7, H8, H9.
  rewrite H1, H2, H5, H6, H7, H9, F2, F6, F7, F8, F9.
  repeat split; try reflexivity; assumption.
Qed.

(** X8. While the optimistic snapshot is an object, a commit is retried
    for as long as the transport fails: after any number of rounds of
    failure and retry timer it is out with the transport again, with the
    same mutations and one more try per round, squashed anew with a new
    transaction identifier each time; the rest of the queue, the buffer and
    the optimistic snapshot are as they were. *)
Theorem failing_commit_is_retried (txns : list N) c bd :
  commitHandler bd = true ->
  LOCAL bd <> None ->
  inflight bd = [c] ->
  exists bd',
    run Mutation_apply Mutation_squash (failure_rounds txns) bd = Some bd' /\
    inflight bd' =
      [mkCommit (Commit_mutations c) (Commit_tries c + length txns)] /\
    commits bd' = commits bd /\
    mutations bd' = mutations bd /\
    LOCAL bd' = LOCAL bd /\
    store bd' = store bd /\
    timers bd' = timers bd /\
    staged (trace bd') =
      staged (trace bd) ++
      map (fun txn =>
             (Mutation_squash (store bd) (LOCAL bd) (Commit_mutations c), txn))
        txns.
Proof.
  revert c bd. induction txns as [|t ts IH]; intros c bd Hh Hl Hi.
  - exists bd. cbn. rewrite Hi, Nat.add_0_r, app_nil_r.
    destruct c; repeat split; reflexivity.
  - destruct (failure_round t c bd Hh Hl Hi)
      as (bd1 & Hr1 & Hi1 & Hc1 & Hm1 & Hl1 & Hs1 & Ht1 & Hh1 & Hg1).
    destruct (IH (mkCommit (Commit_mutations c) (Commit_tries c + 1)) bd1 Hh1)
      as (bd' & Hr & H1 & H2 & H3 & H4 & H5 & H6 & H7);
      [congruence | exact Hi1 |].
    exists bd'. split.
    { change (@failure_rounds Mutation Msg (t :: ts))
        with ([TransportFailure; TimerFires t] ++ @failure_rounds Mutation Msg ts).
      rewrite run_app, Hr1. exact Hr. }
    rewrite H1, H2, H3, H4, H5, H6, H7, Hg1, Hc1, Hm1, Hl1, Hs1, Ht1.
    cbn [Commit_mutations Commit_tries length map].
    rewrite <- app_assoc. cbn [app].
    repeat split; try reflexivity. do 2 f_equal. lia.
Qed.

(** X9. Once the optimistic snapshot is the deleted sentinel, a failing
    commit is given up: it does not go back to the queue, and the retry
    timer moves on to the commits queued behind it, or stops the committer
    when there is none. *)
Theorem failing_commit_on_deleted_is_dropped (txn : N) c bd :
  commitHandler bd = true ->
  LOCAL bd = None ->
  inflight bd = [c] ->
  exists bd',
    run Mutation_apply Mutation_squash [TransportFailure; TimerFires txn] bd
      = Some bd' /\
    inflight bd' ++ commits bd' = commits bd /\
    committerRunning bd' = negb (bool_decide (commits bd = [])) /\
    staged (trace bd') =
      staged (trace bd) ++
      match commits bd with
      | [] => []
      | next :: _ =>
          [Commit_squash Mutation_squash (store bd) (LOCAL bd) next txn]
      end.
Proof.
  intros Hh Hl Hi.
  set (bd1 := responder_failure c (with_inflight [] bd)).
  destruct (responder_failure_fields c (with_inflight [] bd))
    as (F1 & F2 & F3 & F4 & F5 & F6 & F7 & F8 & F9).
  fold bd1 in F1, F2, F3, F4, F5, F6, F7, F8, F9. cbn in F1, F2, F3, F4, F6, F7, F8, F9.
  rewrite bool_decide_eq_false_2 in F1 by (rewrite Hl; auto).
  eexists. split.
  { eapply run_two; [apply step_failure, Hi | apply step_timer, F3]. }
  fold bd1. destruct (commits bd) as [|next rest] eqn:Hc.
  - rewrite _cycleCommitter_stops by exact F1. cbn.
    rewrite F1, F2, F9, !app_nil_r. repeat split; reflexivity.
  - destruct (_cycleCommitter_stages txn _ _ (with_timers (timers bd) bd1) F1)
      as (H1 & H2 & H3 & H4 & H5 & H6 & H7 & H8 & H9).
    { cbn. congruence. }
    cbn in H2, H5, H6, H7, H8, H9.
    rewrite H1, H2, H3, H9, F2, F7, F8, F9.
    repeat split; reflexivity.
Qed.

(** ** A missing transport *)

(** X10. [commit()] on a non-empty buffer without a [commitHandler]
    throws, but only after the buffer has become a Commit at the tail of
    the queue, so nothing is lost by the throw.  Once a handler is set,
    [performCommits()] dequeues and stages the head of that queue if no
    committer is running; if the committer flag is up it returns without
    doing anything and the Commit stays queued. *)
Theorem commit_without_handler_is_kept (t1 t2 : N) (m r d : bool) bd :
  commitHandler bd = false ->
  mutations bd <> [] ->
  let queue := commits bd ++ [Commit_new (mutations bd)] in
  let bd1 := fst (commit Mutation_squash t1 bd) in
  let configured := configure m r d true bd1 in
  let bd2 := fst (performCommits Mutation_squash t2 configured) in
  snd (commit Mutation_squash t1 bd) =
    Threw "No commitHandler configured for this BufferedDocument" /\
  commits bd1 = queue /\
  mutations bd1 = [] /\
  inflight bd1 = inflight bd /\
  committerRunning bd1 = committerRunning bd /\
  (committerRunning bd = false ->
   exists hd,
     queue = hd :: commits bd2 /\
     inflight bd2 = inflight bd ++ [hd] /\
     committerRunning bd2 = true /\
     staged (trace bd2) =
       staged (trace bd) ++
       [Commit_squash Mutation_squash (store bd) (LOCAL bd) hd t2]) /\
  (committerRunning bd = true ->
   performCommits Mutation_squash t2 configured = (configured, Returned) /\
   commits configured = queue).
Proof.
  intros Hh Hne queue bd1 configured bd2.
  assert (E1 : commit Mutation_squash t1 bd =
               (with_mutations [] (with_commits queue bd),
                Threw "No commitHandler configured for this BufferedDocument")).
  { unfold commit, performCommits. rewrite (length_zero_cons _ Hne).
    cbn. rewrite Hh. reflexivity. }
  subst bd2 configured bd1. rewrite E1. cbn [fst snd].
  repeat (split; [reflexivity|]).
  set (bd1 := configure m r d true (with_mutations [] (with_commits queue bd))).
  split.
  - intros Hr.
    assert (E2 : performCommits Mutation_squash t2 bd1 =
                 _cycleCommitter Mutation_squash t2 bd1).
    { unfold performCommits. cbn. rewrite Hr. reflexivity. }
    rewrite E2.
    destruct queue as [|hd rest] eqn:Eq.
    { subst queue. destruct (commits bd); discriminate. }
    destruct (_cycleCommitter_stages t2 hd rest bd1)
      as (H1 & H2 & H3 & H4 & H5 & H6 & H7 & H8 & H9); [reflexivity..|].
    exists hd. rewrite H1, H2, H3, H9. repeat split; reflexivity.
  - intros Hr. split; [|reflexivity].
    unfold performCommits. cbn. rewrite Hr. reflexivity.
Qed.

(** ** Nothing lost, nothing twice *)

Lemma pending_mutations_eq bd bd' :
  inflight bd' ++ commits bd' = inflight bd ++ commits bd ->
  mutations bd' = mutations bd ->
  pending_mutations bd' = pending_mutations bd.
Proof. unfold pending_mutations. intros -> ->. reflexivity. Qed.

Lemma _cycleCommitter_pending (txn : N) bd :
  commitHandler bd = true ->
  pending_mutations (fst (_cycleCommitter Mutation_squash txn bd)) =
  pending_mutations bd.
Proof.
  intros Hh. destruct (commits bd) as [|c rest] eqn:Hc.
  - rewrite _cycleCommitter_stops by exact Hc. reflexivity.
  - destruct (_cycleCommitter_stages txn c rest bd Hc Hh)
      as (H1 & H2 & _ & _ & H5 & _).
    apply pending_mutations_eq; [|exact H5].
    rewrite H1, H2, Hc, <- app_assoc. reflexivity.
Qed.

Lemma performCommits_pending (txn : N) bd :
  pending_mutations (fst (performCommits Mutation_squash txn bd)) =
  pending_mutations bd.
Proof.
  unfold performCommits. destruct (commitHandler bd) eqn:Hh; cbn; [|reflexivity].
  destruct (committerRunning bd); cbn; [reflexivity|].
  apply _cycleCommitter_pending, Hh.
Qed.

Lemma committer_state_pending bd bd' :
  committer_state bd' = committer_state bd ->
  commits bd' = commits bd ->
  mutations bd' = mutations bd ->
  pending_mutations bd' = pending_mutations bd.
Proof.
  unfold committer_state. intros [= Hi _ _] Hc Hm.
  apply pending_mutations_eq; congruence.
Qed.

(** X11. The mutations the caller has added and that are not confirmed
    yet (with the transport, queued, buffered, in that order) are never
    lost, repeated or reordered while the document lives and a handler is
    set: [add] puts its mutation at the end, a success of the transport
    takes the mutations of the confirmed commit off the front, and every
    other call, callback, timer or notification leaves the list as it
    is. *)
Theorem pending_mutations_conserved (i : input) bd bd' :
  step Mutation_apply Mutation_squash i bd = Some bd' ->
  commitHandler bd = true ->
  length (inflight bd) <= 1 ->
  match i with
  | DoAdd m => pending_mutations bd' = pending_mutations bd ++ [m]
  | TransportSuccess _ =>
      exists c, inflight bd = [c] /\
                pending_mutations bd = Commit_mutations c ++ pending_mutations bd'
  | TransportFailure =>
      LOCAL bd <> None -> pending_mutations bd' = pending_mutations bd
  | DoReset edge | TrackerMutation edge _ | TrackerRebase edge _ =>
      edge <> None -> pending_mutations bd' = pending_mutations bd
  | _ => pending_mutations bd' = pending_mutations bd
  end.
Proof.
  intros Hs Hh Hone.
  destruct i as [m | t | t | edge | m | ? ? ? ?
                 | o | t | | t | edge msg | edge msg | edge];
    cbn [step] in Hs.
  - injection Hs as <-.
    destruct (add_fields Mutation_apply m bd) as (Hm & _ & Hc & _).
    pose proof (add_committer Mutation_apply m bd) as Hcs.
    unfold committer_state in Hcs. injection Hcs as Hi _ _.
    cbn zeta in *. unfold pending_mutations.
    rewrite Hm, Hc, Hi, app_assoc. reflexivity.
  - injection Hs as <-. unfold commit.
    destruct (length (mutations bd) =? 0)%nat; [reflexivity|].
    rewrite performCommits_pending. unfold pending_mutations. cbn.
    rewrite app_nil_r, app_assoc, map_app, concat_app. cbn.
    rewrite app_nil_r. reflexivity.
  - injection Hs as <-. apply performCommits_pending.
  - injection Hs as <-. intros Hd. unfold reset.
    destruct (rebase_live_fields Mutation_apply (Document_reset edge bd))
      as (Hc & Hm & _ & Hcs & _); [exact Hd|].
    apply committer_state_pending; assumption.
  - injection Hs as <-. reflexivity.
  - injection Hs as <-. reflexivity.
  - injection Hs as <-. reflexivity.
  - destruct (inflight bd) as [|c [|c2 rest]] eqn:Hi;
      [discriminate | | cbn in Hone; lia].
    injection Hs as <-. exists c. split; [reflexivity|].
    unfold responder_success. rewrite _cycleCommitter_pending by exact Hh.
    unfold pending_mutations. cbn. rewrite Hi. cbn. rewrite <- app_assoc.
    reflexivity.
  - destruct (inflight bd) as [|c [|c2 rest]] eqn:Hi;
      [discriminate | | cbn in Hone; lia].
    injection Hs as <-. intros Hl.
    destruct (responder_failure_fields c (with_inflight [] bd))
      as (F1 & F2 & _ & _ & _ & F6 & _).
    cbn in F1, F2, F6. rewrite bool_decide_eq_true_2 in F1 by exact Hl.
    unfold pending_mutations. rewrite F1, F2, F6, Hi. reflexivity.
  - destruct (timers bd) as [|n]; [discriminate|].
    injection Hs as <-. rewrite _cycleCommitter_pending by exact Hh.
    reflexivity.
  - injection Hs as <-. intros Hd.
    destruct (handleDocMutation_live_fields Mutation_apply msg (with_EDGE edge bd))
      as (Hc & Hm & Hcs); [exact Hd|].
    apply committer_state_pending; assumption.
  - injection Hs as <-. intros Hd. unfold handleDocRebase.
    destruct (rebase_live_fields Mutation_apply (with_EDGE edge bd))
      as (Hc & Hm & _ & Hcs & _); [exact Hd|].
    apply committer_state_pending; assumption.
  - injection Hs as <-. reflexivity.
Qed.

End Committer.

Section Idempotence.

Context {Mutation Msg : Type}.
Variable Mutation_apply : Mutation -> heap -> ref -> heap * ref.
Variable Mutation_squash : heap -> ref -> list Mutation -> Mutation.
Variable apply_value : Mutation -> option obj -> option obj.
Hypothesis Hpure : pure_apply Mutation_apply apply_value.

Implicit Types bd : BufferedDocument Mutation Msg.

Lemma recompute_pure_ok bd :
  ref_ok (store bd) (EDGE bd) ->
  exists ext,
    fst (recompute Mutation_apply bd) = store bd ++ ext /\
    ref_ok (store bd ++ ext) (snd (recompute Mutation_apply bd)) /\
    deref (store bd ++ ext) (snd (recompute Mutation_apply bd)) =
    recompute_value apply_value bd.
Proof.
  intros Hok. unfold recompute, recompute_value.
  destruct (commits_pure Mutation_apply apply_value Hpure (commits bd) _ _ Hok)
    as (e1 & Hh & Hok1 & Hv).
  cbn zeta in *.
  destruct (fold_left _ (commits bd) _) as [h1 r1]; cbn [fst snd] in *. subst h1.
  destruct (applyAll_pure Mutation_apply apply_value Hpure (mutations bd) _ _ Hok1)
    as (e2 & Hh2 & Hok2 & Hv2).
  exists (e1 ++ e2). rewrite app_assoc, Hh2, Hv2, Hv. auto.
Qed.

Lemma recompute_value_ext bd1 bd2 :
  deref (store bd1) (EDGE bd1) = deref (store bd2) (EDGE bd2) ->
  commits bd1 = commits bd2 ->
  mutations bd1 = mutations bd2 ->
  recompute_value apply_value bd1 = recompute_value apply_value bd2.
Proof. unfold recompute_value. intros -> -> ->. reflexivity. Qed.

(** X12. For a pure [apply], on a live document whose recomputed
    snapshot carries a revision, a [rebase] right after a [rebase] calls no
    handler: the second recomputation has the content of the first.  (The
    previous optimistic snapshot must not be the authoritative object
    itself, unless the recomputation hands back that same object: the
    write of the revision would change what is recomputed from.) *)
Theorem rebase_twice_with_revision bd (h : heap) (l : ref) :
  EDGE bd <> None ->
  ref_ok (store bd) (EDGE bd) ->
  ref_ok (store bd) (LOCAL bd) ->
  recompute Mutation_apply bd = (h, l) ->
  (forall n, l = Some n ->
             exists nn, h !! n = Some nn /\ is_Some (nn !! "_rev"%string)) ->
  LOCAL bd <> EDGE bd \/ LOCAL bd = l ->
  let once := rebase Mutation_apply bd in
  let twice := rebase Mutation_apply once in
  trace twice = trace once.
Proof.
  intros He Hoke Hokl Hre Hrev Halias once twice.
  destruct (rebase_live_state Mutation_apply bd h l He Hre) as (Hs1 & Hl1 & He1 & Hc1 & Hm1).
  fold once in Hs1, Hl1, He1, Hc1, Hm1.
  destruct (recompute_pure_ok bd Hoke) as (ext0 & Hh0 & Hokl0 & Hv0).
  rewrite Hre in Hh0, Hokl0, Hv0. cbn [fst snd] in Hh0, Hokl0, Hv0.
  rewrite <- Hh0 in Hokl0, Hv0.
  (* the store after the first rebase agrees with [h] where it matters *)
  assert (Hlen : length (store once) = length h).
  { rewrite Hs1. destruct (LOCAL bd), l; auto using copy_rev_length. }
  assert (Hat_l : deref (store once) l = deref h l).
  { rewrite Hs1. destruct l as [n|]; [|destruct (LOCAL bd); reflexivity].
    destruct (LOCAL bd) as [o|]; [|reflexivity]. cbn.
    destruct (Hrev n eq_refl) as (nn & Hn & Hr).
    destruct (decide (n = o)) as [->|Hne].
    - rewrite (copy_rev_self h o nn Hn Hr). reflexivity.
    - apply copy_rev_other, Hne. }
  assert (Hat_e : deref (store once) (EDGE bd) = deref (store bd) (EDGE bd)).
  { rewrite <- (deref_app (store bd) ext0 _ Hoke), <- Hh0, Hs1.
    destruct (EDGE bd) as [e|]; [|congruence].
    destruct (LOCAL bd) as [o|], l as [n|]; try reflexivity. cbn.
    destruct Halias as [Hne | [= ->]].
    - apply copy_rev_other. congruence.
    - destruct (Hrev n eq_refl) as (nn & Hn & Hr).
      rewrite (copy_rev_self h n nn Hn Hr). reflexivity. }
  assert (Hoke1 : ref_ok (store once) (EDGE once)).
  { rewrite He1. destruct (EDGE bd) as [e|]; [|exact I].
    unfold ref_ok in *. rewrite Hlen, Hh0, length_app. lia. }
  (* the second recomputation *)
  destruct (recompute Mutation_apply once) as [h2 l2] eqn:Hre2.
  destruct (recompute_pure_ok once Hoke1) as (ext1 & Hh1 & Hokl1 & Hv1).
  rewrite Hre2 in Hh1, Hokl1, Hv1. cbn [fst snd] in Hh1, Hokl1, Hv1.
  rewrite <- Hh1 in Hokl1, Hv1.
  assert (Hsame : deref h2 l2 = deref h l).
  { rewrite Hv1, Hv0. apply recompute_value_ext; [|assumption..].
    rewrite He1. exact Hat_e. }
  assert (Hokl2 : ref_ok (store once) l).
  { destruct l as [n|]; [|exact I]. unfold ref_ok in *. rewrite Hlen.
    exact Hokl0. }
  assert (Hold : deref h2 l = deref h l).
  { rewrite Hh1, (deref_app _ _ _ Hokl2). exact Hat_l. }
  assert (He1' : EDGE once <> None) by congruence.
  subst twice.
  rewrite (rebase_notifies_iff_content_changed Mutation_apply Mutation_squash
             once h2 l2);
    rewrite ?(purge_if_deleted_live once He1'); try assumption.
  - rewrite Hl1. unfold same_content. rewrite Hsame, Hold.
    rewrite bool_decide_eq_true_2 by reflexivity.
    rewrite andb_false_r, app_nil_r. reflexivity.
  - rewrite Hl1, Hh1. apply ref_ok_app, Hokl2.
  - intros n2 ->. cbn in Hokl1, Hsame.
    destruct (lookup_lt_is_Some_2 _ _ Hokl1) as [x Hx].
    rewrite Hx in Hsame. destruct l as [n|]; [|discriminate]. cbn in Hsame.
    destruct (Hrev n eq_refl) as (nn & Hn & Hr).
    exists x. split; [exact Hx|]. congruence.
Qed.

End Idempotence.

Section Protocol.

Context {Mutation Msg : Type}.
Variable Mutation_apply : Mutation -> heap -> ref -> heap * ref.
Variable Mutation_squash : heap -> ref -> list Mutation -> Mutation.

Implicit Types bd : BufferedDocument Mutation Msg.
Implicit Types c : Commit Mutation.
Implicit Types evs : list (event Mutation Msg).

(** ** commit, twice *)

Lemma _cycleCommitter_mutations (txn : N) bd :
  mutations (fst (_cycleCommitter Mutation_squash txn bd)) = mutations bd.
Proof.
  unfold _cycleCommitter. destruct (commits bd); [reflexivity|].
  cbn. destruct (commitHandler bd); reflexivity.
Qed.

Lemma commit_empties_buffer (txn : N) bd :
  mutations (fst (commit Mutation_squash txn bd)) = [].
Proof.
  unfold commit. destruct (mutations bd) as [|m ms] eqn:Hm; cbn; [exact Hm|].
  unfold performCommits. cbn.
  destruct (commitHandler bd); cbn; [|reflexivity].
  destruct (committerRunning bd); cbn; [reflexivity|].
  apply _cycleCommitter_mutations.
Qed.

(** X13. [commit()] leaves the buffer empty whatever happens, so that a
    second [commit()] right after it returns without doing anything, also
    when the first one threw for want of a handler. *)
Theorem commit_twice_is_commit_once (t1 t2 : N) bd :
  commit Mutation_squash t2 (fst (commit Mutation_squash t1 bd)) =
  (fst (commit Mutation_squash t1 bd), Returned).
Proof.
  pose proof (commit_empties_buffer t1 bd) as He.
  unfold commit at 1. rewrite He. reflexivity.
Qed.

(** ** Staged first, then handed to the transport *)

Lemma handed_app evs1 evs2 : handed (evs1 ++ evs2) = handed evs1 ++ handed evs2.
Proof. unfold handed. apply flat_map_app. Qed.

Lemma quiet_nil : quiet ([] : list (event Mutation Msg)).
Proof. split; reflexivity. Qed.

Lemma quiet_app evs1 evs2 : quiet evs1 -> quiet evs2 -> quiet (evs1 ++ evs2).
Proof.
  intros [S1 H1] [S2 H2]. unfold quiet.
  rewrite staged_app, handed_app, S1, S2, H1, H2. auto.
Qed.

Lemma staged_first_weaken (p : option (Mutation * N)) evs :
  staged_first None evs -> staged_first p evs.
Proof.
  destruct evs as [|e evs]; [trivial|]. destruct e; cbn; try tauto.
  intros [Hp _]. discriminate.
Qed.

Lemma staged_first_app (p : option (Mutation * N)) evs1 evs2 :
  staged_first p evs1 -> staged_first None evs2 ->
  staged_first p (evs1 ++ evs2).
Proof.
  revert p. induction evs1 as [|e evs1 IH]; intros p H1 H2.
  - apply staged_first_weaken, H2.
  - destruct e; cbn in *; try (apply IH; assumption).
    destruct H1 as [Hp H1]. split; [exact Hp|]. apply IH; assumption.
Qed.

Lemma quiet_staged_first (p : option (Mutation * N)) evs :
  quiet evs -> staged_first p evs.
Proof.
  revert p. induction evs as [|e evs IH]; intros p [Hs Hh]; [exact I|].
  destruct e; cbn in *; try discriminate; apply IH; split; assumption.
Qed.

Lemma handleDocumentDeleted_quiet bd :
  exists evs, trace (handleDocumentDeleted bd) = trace bd ++ evs /\ quiet evs.
Proof.
  unfold handleDocumentDeleted. destruct (_ && _); cbn.
  - eexists. split; [reflexivity|]. split; reflexivity.
  - exists []. rewrite app_nil_r. split; [reflexivity|]. apply quiet_nil.
Qed.

Lemma rebase_quiet bd :
  exists evs, trace (rebase Mutation_apply bd) = trace bd ++ evs /\ quiet evs.
Proof.
  destruct (recompute Mutation_apply (purge_if_deleted bd)) as [h l] eqn:Hre.
  rewrite (rebase_eq _ _ _ _ Hre). cbn zeta.
  assert (H0 : exists evs, trace (purge_if_deleted bd) = trace bd ++ evs /\ quiet evs).
  { unfold purge_if_deleted. destruct (bool_decide _).
    - apply handleDocumentDeleted_quiet.
    - exists []. rewrite app_nil_r. split; [reflexivity|]. apply quiet_nil. }
  destruct H0 as (evs0 & Ht0 & Hq0).
  destruct (_ && _); cbn; rewrite Ht0.
  - exists (evs0 ++ [OnRebase l]). rewrite app_assoc. split; [reflexivity|].
    apply quiet_app; [exact Hq0 | split; reflexivity].
  - eauto.
Qed.

Lemma handleDocMutation_quiet (msg : Msg) bd :
  exists evs,
    trace (handleDocMutation Mutation_apply msg bd) = trace bd ++ evs /\ quiet evs.
Proof.
  unfold handleDocMutation.
  match goal with
  | |- context [rebase _ (if _ then handleDocumentDeleted ?x else _)] =>
      set (bd1 := x)
  end.
  assert (H1 : exists evs, trace bd1 = trace bd ++ evs /\ quiet evs).
  { subst bd1. destruct (_ && _); [destruct (onMutation _)|]; cbn.
    - eexists. split; [reflexivity|]. split; reflexivity.
    - exists []. rewrite app_nil_r. split; [reflexivity|]. apply quiet_nil.
    - exists []. rewrite app_nil_r. split; [reflexivity|]. apply quiet_nil. }
  destruct H1 as (evs1 & Ht1 & Hq1).
  set (bd2 := if bool_decide (EDGE bd1 = None) then _ else bd1).
  assert (H2 : exists evs, trace bd2 = trace bd ++ evs /\ quiet evs).
  { subst bd2. destruct (bool_decide _); [|eauto].
    destruct (handleDocumentDeleted_quiet bd1) as (evs & -> & Hq).
    rewrite Ht1, <- app_assoc. eauto using quiet_app. }
  destruct H2 as (evs2 & Ht2 & Hq2).
  destruct (rebase_quiet bd2) as (evs3 & -> & Hq3).
  rewrite Ht2, <- app_assoc. eauto using quiet_app.
Qed.

Lemma add_appends_events (m : Mutation) bd :
  trace (add Mutation_apply m bd) = trace bd \/
  trace (add Mutation_apply m bd) =
  trace bd ++ [OnMutation m (LOCAL (add Mutation_apply m bd)) false].
Proof.
  unfold add.
  destruct bd as [h e l cs ms onM onR onD cH rn fl tm tr]; cbn.
  destruct (Mutation_apply m h l) as [h' l']; cbn.
  destruct (onM && ref_neq l l'); cbn; auto.
Qed.

Lemma add_quiet (m : Mutation) bd :
  exists evs, trace (add Mutation_apply m bd) = trace bd ++ evs /\ quiet evs.
Proof.
  destruct (add_appends_events m bd) as [-> | ->].
  - exists []. rewrite app_nil_r. split; [reflexivity|]. apply quiet_nil.
  - eexists. split; [reflexivity|]. split; reflexivity.
Qed.

Lemma reset_quiet (doc : ref) bd :
  exists evs, trace (reset Mutation_apply doc bd) = trace bd ++ evs /\ quiet evs.
Proof.
  unfold reset.
  destruct (rebase_quiet (Document_reset doc bd)) as (evs & -> & Hq).
  cbn. rewrite <- app_assoc. eexists. split; [reflexivity|].
  apply (quiet_app [_]); [split; reflexivity | exact Hq].
Qed.

Lemma _cycleCommitter_staged_first (txn : N) bd :
  exists evs,
    trace (fst (_cycleCommitter Mutation_squash txn bd)) = trace bd ++ evs /\
    staged_first None evs.
Proof.
  unfold _cycleCommitter. destruct (commits bd) as [|c rest]; cbn.
  - exists []. rewrite app_nil_r. split; [reflexivity | exact I].
  - destruct (commitHandler bd); cbn.
    + eexists. rewrite <- app_assoc. split; [reflexivity|]. cbn. auto.
    + eexists. split; [reflexivity|]. exact I.
Qed.

Lemma performCommits_staged_first (txn : N) bd :
  exists evs,
    trace (fst (performCommits Mutation_squash txn bd)) = trace bd ++ evs /\
    staged_first None evs.
Proof.
  unfold performCommits.
  destruct (commitHandler bd); cbn;
    [destruct (committerRunning bd); cbn|];
    try apply _cycleCommitter_staged_first;
    exists []; rewrite app_nil_r; (split; [reflexivity | exact I]).
Qed.

Lemma step_staged_first (i : input) bd bd' :
  step Mutation_apply Mutation_squash i bd = Some bd' ->
  exists evs, trace bd' = trace bd ++ evs /\ staged_first None evs.
Proof.
  assert (Hnil : exists evs, trace bd = trace bd ++ evs /\ staged_first None evs).
  { exists []. rewrite app_nil_r. split; [reflexivity | exact I]. }
  destruct i as [m | t | t | doc | m | ? ? ? ?
                 | o | t | | t | edge msg | edge msg | edge];
    cbn [step]; intros Hs.
  - injection Hs as <-. destruct (add_quiet m bd) as (evs & -> & Hq).
    eauto using quiet_staged_first.
  - injection Hs as <-. unfold commit.
    destruct (length (mutations bd) =? 0)%nat; [exact Hnil|].
    match goal with
    | |- context [performCommits _ _ ?b] =>
        destruct (performCommits_staged_first t b) as (evs & -> & Hp)
    end.
    eauto.
  - injection Hs as <-. apply performCommits_staged_first.
  - injection Hs as <-. destruct (reset_quiet doc bd) as (evs & -> & Hq).
    eauto using quiet_staged_first.
  - injection Hs as <-. eexists. split; [reflexivity | exact I].
  - injection Hs as <-. exact Hnil.
  - injection Hs as <-. exact Hnil.
  - destruct (inflight bd) as [|c rest]; [discriminate|]. injection Hs as <-.
    unfold responder_success.
    match goal with
    | |- context [_cycleCommitter _ _ ?b] =>
        destruct (_cycleCommitter_staged_first t b) as (evs & -> & Hp)
    end.
    cbn. rewrite <- app_assoc. eexists. split; [reflexivity|].
    cbn. exact Hp.
  - destruct (inflight bd) as [|c rest]; [discriminate|]. injection Hs as <-.
    unfold responder_failure.
    destruct (bool_decide _); cbn; rewrite <- app_assoc;
      (eexists; split; [reflexivity | cbn; exact I]).
  - destruct (timers bd) as [|n]; [discriminate|]. injection Hs as <-.
    destruct (_cycleCommitter_staged_first t (with_timers n bd))
      as (evs & -> & Hp).
    eauto.
  - injection Hs as <-.
    destruct (handleDocMutation_quiet msg (with_EDGE edge bd)) as (evs & -> & Hq).
    eauto using quiet_staged_first.
  - injection Hs as <-. unfold handleDocRebase.
    destruct (rebase_quiet (with_EDGE edge bd)) as (evs & -> & Hq).
    eauto using quiet_staged_first.
  - injection Hs as <-. exact Hnil.
Qed.

(** X14. Whatever happens to an engine, every call of its
    [commitHandler] comes, in the trace of what the engine does, right
    after the call of [document.stage] with the same squashed mutation: the
    transport is handed nothing that was not staged just before. *)
Theorem transport_gets_only_what_was_staged
    (ins : list input) (h : heap) (doc : ref) bd :
  run Mutation_apply Mutation_squash ins (constructor h doc) = Some bd ->
  staged_first None (trace bd).
Proof.
  intros Hr.
  assert (Hgen : forall (ins : list input) bd0 bd1,
             run Mutation_apply Mutation_squash ins bd0 = Some bd1 ->
             staged_first None (trace bd0) -> staged_first None (trace bd1)).
  { clear. intros ins. induction ins as [|i ins IH]; cbn; intros bd0 bd1 Hr Hp.
    - injection Hr as <-. exact Hp.
    - destruct (step _ _ i bd0) as [bd'|] eqn:Hs; [|discriminate].
      destruct (step_staged_first _ _ _ Hs) as (evs & Ht & Hpe).
      apply (IH _ _ Hr). rewrite Ht. apply staged_first_app; assumption. }
  apply (Hgen _ _ _ Hr). exact I.
Qed.

End Protocol.

Section Recomputation.

Context {Mutation Msg : Type}.
Variable Mutation_apply : Mutation -> heap -> ref -> heap * ref.
Variable Mutation_squash : heap -> ref -> list Mutation -> Mutation.

Implicit Types bd : BufferedDocument Mutation Msg.
Implicit Types c : Commit Mutation.

(** ** The recomputation after [rebase] *)





End Recomputation.

Section Retry.

Context {Mutation Msg : Type}.
Variable Mutation_apply : Mutation -> heap -> ref -> heap * ref.
Variable Mutation_squash : heap -> ref -> list Mutation -> Mutation.

Implicit Types bd : BufferedDocument Mutation Msg.
Implicit Types c : Commit Mutation.

(** ** Between a failure and its retry *)






End Retry.

(** * Recomputation and retry at work on the sample algebra *)




(** * The further properties at work on the sample algebra *)

Lemma rebase_live_keeps_pending_work_witness :
  commits (rebase Sample.apply Sample.edited) = commits Sample.edited /\
  mutations (rebase Sample.apply Sample.edited) = mutations Sample.edited.
Proof.
  assert (He : EDGE Sample.edited <> None) by (vm_compute; discriminate).
  assert (Hre : recompute Sample.apply Sample.edited =
                (store Sample.edited ++ [Sample.counter 1], Some 2%nat))
    by (vm_compute; reflexivity).
  pose proof (rebase_live_keeps_pending_work Sample.apply Sample.edited _ _ He Hre)
    as (H1 & H2 & _).
  split; assumption.
Defined.

Lemma rebase_deleted_purges_witness :
  LOCAL (rebase Sample.apply (with_EDGE None Sample.edited)) = None /\
  commits (rebase Sample.apply (with_EDGE None Sample.edited)) = [].
Proof.
  assert (He : EDGE (with_EDGE None Sample.edited) = None)
    by (vm_compute; reflexivity).
  assert (Hok : ref_ok (store (with_EDGE None Sample.edited))
                  (LOCAL (with_EDGE None Sample.edited)))
    by (vm_compute; lia).
  pose proof (rebase_deleted_purges Sample.apply _ He Hok) as (H1 & H2 & _).
  split; assumption.
Defined.


Lemma handleDocMutation_pending_is_rebase_witness :
  handleDocMutation Sample.apply tt Sample.edited =
  rebase Sample.apply Sample.edited.
Proof.
  apply (handleDocMutation_pending_is_rebase Sample.apply tt Sample.edited).
  - right. vm_compute. discriminate.
  - vm_compute. discriminate.
Defined.

Lemma rebase_twice_nothing_pending_witness :
  trace (rebase Sample.apply (rebase Sample.apply Sample.behind)) =
  trace (rebase Sample.apply Sample.behind).
Proof.
  apply (rebase_twice_nothing_pending Sample.apply Sample.behind);
    vm_compute; reflexivity.
Defined.

Lemma success_drains_queue_in_order_witness :
  exists bd',
    run Sample.apply Sample.squash [TransportSuccess 9%N; TransportSuccess 10%N]
      Sample.backlog = Some bd' /\
    commits bd' = [] /\
    inflight bd' = [] /\
    committerRunning bd' = false.
Proof.
  destruct (success_drains_queue_in_order Sample.apply Sample.squash
              [9%N; 10%N] (Commit_new [Sample.incField "count" 1])
              Sample.backlog)
    as (bd' & Hr & H1 & H2 & H3 & _).
  - vm_compute. reflexivity.
  - vm_compute. reflexivity.
  - vm_compute. reflexivity.
  - exists bd'. auto.
Defined.

Lemma failing_commit_is_retried_witness :
  exists bd',
    run Sample.apply Sample.squash (failure_rounds [9%N; 10%N]) Sample.submitted
      = Some bd' /\
    inflight bd' = [mkCommit [Sample.incField "count" 1] 2].
Proof.
  destruct (failing_commit_is_retried Sample.apply Sample.squash
              [9%N; 10%N] (Commit_new [Sample.incField "count" 1])
              Sample.submitted)
    as (bd' & Hr & H1 & _).
  - vm_compute. reflexivity.
  - vm_compute. discriminate.
  - vm_compute. reflexivity.
  - exists bd'. auto.
Defined.

Lemma failing_commit_on_deleted_is_dropped_witness :
  exists bd',
    run Sample.apply Sample.squash [TransportFailure; TimerFires 9%N]
      Sample.deleting = Some bd' /\
    inflight bd' ++ commits bd' = [] /\
    committerRunning bd' = false.
Proof.
  destruct (failing_commit_on_deleted_is_dropped Sample.apply Sample.squash
              9%N (Commit_new [[Sample.Delete]]) Sample.deleting)
    as (bd' & Hr & H1 & H2 & _).
  - vm_compute. reflexivity.
  - vm_compute. reflexivity.
  - vm_compute. reflexivity.
  - exists bd'. auto.
Defined.

Lemma commit_without_handler_is_kept_witness :
  snd (commit Sample.squash 7%N Sample.unconfigured) =
    Threw "No commitHandler configured for this BufferedDocument" /\
  commits (fst (commit Sample.squash 7%N Sample.unconfigured)) =
    [Commit_new [Sample.incField "count" 1]].
Proof.
  assert (Hh : commitHandler Sample.unconfigured = false)
    by (vm_compute; reflexivity).
  assert (Hne : mutations Sample.unconfigured <> [])
    by (vm_compute; discriminate).
  pose proof (commit_without_handler_is_kept Sample.squash 7%N 8%N
                true true true Sample.unconfigured Hh Hne) as (H1 & H2 & _).
  split; assumption.
Defined.

Lemma pending_mutations_conserved_witness :
  pending_mutations Sample.failed = pending_mutations Sample.submitted.
Proof.
  apply (pending_mutations_conserved Sample.apply Sample.squash
           TransportFailure Sample.submitted Sample.failed).
  - vm_compute. reflexivity.
  - vm_compute. reflexivity.
  - vm_compute. lia.
  - vm_compute. discriminate.
Defined.

Lemma rebase_twice_with_revision_witness :
  trace (rebase Sample.apply (rebase Sample.apply Sample.edited_rev)) =
  trace (rebase Sample.apply Sample.edited_rev).
Proof.
  apply (rebase_twice_with_revision Sample.apply Sample.squash _
           Sample_apply_pure Sample.edited_rev
           (store Sample.edited_rev ++ [Sample.counter_rev 1 "r1"])
           (Some 2%nat)).
  - vm_compute. discriminate.
  - vm_compute. lia.
  - vm_compute. lia.
  - vm_compute. reflexivity.
  - intros n [= <-]. exists (Sample.counter_rev 1 "r1").
    split; [vm_compute; reflexivity|].
    exists (VStr "r1"). vm_compute. reflexivity.
  - left. vm_compute. discriminate.
Defined.

Lemma transport_gets_only_what_was_staged_witness :
  staged_first None (trace Sample.backlog).
Proof.
  apply (transport_gets_only_what_was_staged Sample.apply Sample.squash
           [DoConfigure true true true true;
            DoAdd (Sample.incField "count" 1); DoCommit 7%N;
            DoAdd (Sample.incField "count" 2); DoCommit 8%N]
           [Sample.counter 0] (Some 0%nat)).
  vm_compute. reflexivity.
Defined.
